(** * A two-pass MIPS assembler back end: tables.c, translate_utils.c, translate.c

    Shallow embedding of the symbol/relocation table, the token validators,
    the pseudo-instruction expander (pass one) and the instruction encoder
    (pass two), followed by the properties of the design document that were
    checked against them and by further properties read off the code.

    Conventions of the embedding:
    - a [uint32_t] or [int] is a [Z]; conversions between the C types are
      written out with [to_uint32] and [to_int32];
    - [long int] is 64 bits wide (LP64);
    - a C string is a [string] without the NUL character; a [char*] that
      the code tests against NULL is an [option string];
    - a [FILE*] opened for writing is represented by the text a call appends
      to it: every writer returns its C result together with that text;
    - [malloc]/[realloc] succeed ([allocation_failed] leaves the process). *)

From Stdlib Require Import ZArith Lia Ascii String DecimalString DecimalPos
  DecimalFacts.
From stdpp Require Import base list strings.

Open Scope string_scope.
Open Scope Z_scope.

(** ** C integer types *)
Module CInt.

Definition to_uint32 (x : Z) : Z := x mod 2 ^ 32.

Definition to_int32 (x : Z) : Z := (x + 2 ^ 31) mod 2 ^ 32 - 2 ^ 31.

Definition LONG_MIN : Z := - 2 ^ 63.
Definition LONG_MAX : Z := 2 ^ 63 - 1.
Definition INT16_MIN : Z := -32768.
Definition INT16_MAX : Z := 32767.
Definition UINT16_MAX : Z := 65535.

(** [x << n] on operands of type [int]. *)
Definition shl_int (x n : Z) : Z := to_int32 (Z.shiftl x n).

End CInt.
Import CInt.

(** ** The C library functions the sources call *)
Module Libc.

Definition code (c : ascii) : Z := Z.of_N (N_of_ascii c).

(** [isspace] in the C locale: space, \t, \n, \v, \f, \r. *)
Definition isspace (c : ascii) : bool :=
  (code c =? 32) || ((9 <=? code c) && (code c <=? 13)).

(** Value of a character read as a digit: 0-9, then letters of either case
    from 10 on. *)
Definition digit_value (c : ascii) : option Z :=
  let n := code c in
  if (48 <=? n) && (n <=? 57) then Some (n - 48)
  else if (97 <=? n) && (n <=? 122) then Some (n - 87)
  else if (65 <=? n) && (n <=? 90) then Some (n - 55)
  else None.

Definition digit_in (base : Z) (c : ascii) : option Z :=
  match digit_value c with
  | Some d => if d <? base then Some d else None
  | None => None
  end.

Fixpoint skip_spaces (s : string) : string :=
  match s with
  | String c r => if isspace c then skip_spaces r else s
  | EmptyString => s
  end.

(** Longest run of digits of [base] at the head of [s], folded into [acc];
    returns the value and the unread rest. *)
Fixpoint accumulate (base acc : Z) (s : string) : Z * string :=
  match s with
  | String c r =>
      match digit_in base c with
      | Some d => accumulate base (acc * base + d) r
      | None => (acc, s)
      end
  | EmptyString => (acc, s)
  end.

Definition clamp_long (v : Z) : Z :=
  if v <? LONG_MIN then LONG_MIN else if v >? LONG_MAX then LONG_MAX else v.

Definition is_x (c : ascii) : bool := (code c =? 120) || (code c =? 88).

Definition is_some {A} (o : option A) : bool :=
  match o with Some _ => true | None => false end.

(** [strtol(nptr, &end, 0)] (ISO C 7.22.1.4): optional white space, optional
    sign, base chosen by the prefix (0x/0X followed by a hexadecimal digit:
    16; a leading 0: 8; otherwise 10), then the longest run of digits. The
    result is the value, clamped to [LONG_MIN, LONG_MAX], and the text [end]
    points to; when no digit can be read the value is 0 and [end] is [nptr]. *)
Definition strtol (nptr : string) : Z * string :=
  let s1 := skip_spaces nptr in
  let '(neg, s2) :=
    match s1 with
    | String c r =>
        if code c =? 45 then (true, r)
        else if code c =? 43 then (false, r)
        else (false, s1)
    | EmptyString => (false, s1)
    end in
  let '(base, s3) :=
    match s2 with
    | String z (String x (String h r)) =>
        if (code z =? 48) && is_x x && is_some (digit_in 16 h)
        then (16, String h r)
        else if code z =? 48 then (8, s2) else (10, s2)
    | String z _ => if code z =? 48 then (8, s2) else (10, s2)
    | EmptyString => (10, s2)
    end in
  match s3 with
  | String c _ =>
      if is_some (digit_in base c)
      then let '(v, rest) := accumulate base 0 s3 in
           (clamp_long (if neg then - v else v), rest)
      else (0, nptr)
  | EmptyString => (0, nptr)
  end.

(** [printf("%ld", v)]. *)
Definition print_ld (v : Z) : string := NilZero.string_of_int (Z.to_int v).

Definition hex_digit (d : Z) : ascii :=
  ascii_of_N (Z.to_N (if d <? 10 then 48 + d else 87 + d)).

Definition nibble (w : Z) (i : Z) : Z := Z.land (Z.shiftr w (4 * i)) 15.

(** [printf("%08x", w)] for a [uint32_t] [w]: exactly eight lowercase digits. *)
Definition print_08x (w : Z) : string :=
  String (hex_digit (nibble w 7)) (String (hex_digit (nibble w 6))
  (String (hex_digit (nibble w 5)) (String (hex_digit (nibble w 4))
  (String (hex_digit (nibble w 3)) (String (hex_digit (nibble w 2))
  (String (hex_digit (nibble w 1)) (String (hex_digit (nibble w 0))
  EmptyString))))))).

Definition newline : string := String (ascii_of_N 10) EmptyString.

End Libc.
Import Libc.

(** ** translate_utils.c *)
Module TranslateUtils.

(** [write_inst_string]: the name, each argument after a space, a newline. *)
Definition write_inst_string (name : string) (args : list string) : string :=
  name ++ fold_right (fun a acc => " " ++ a ++ acc) EmptyString args ++ newline.

(** [write_inst_hex]. *)
Definition write_inst_hex (instruction : Z) : string :=
  print_08x instruction ++ newline.

(** [translate_num]. The location [output] points to is passed as its
    current content ([None]: an uninitialised local) and returned as its
    content after the call; every caller passes the address of a local. *)
Definition translate_num (output : option Z) (str : option string)
    (lower_bound upper_bound : Z) : Z * option Z :=
  match str with
  | None => (-1, output)
  | Some s =>
      let '(sig_num, _) := strtol s in
      if (sig_num <? lower_bound) || (sig_num >? upper_bound)
      then (-1, output)
      else (0, Some sig_num)
  end.

(** [translate_reg]. *)
Definition translate_reg (str : string) : Z :=
  if String.eqb str "$zero" then 0
  else if String.eqb str "$0" then 0
  else if String.eqb str "$at" then 1
  else if String.eqb str "$v0" then 2
  else if String.eqb str "$a0" then 4
  else if String.eqb str "$a1" then 5
  else if String.eqb str "$a2" then 6
  else if String.eqb str "$a3" then 7
  else if String.eqb str "$t0" then 8
  else if String.eqb str "$t1" then 9
  else if String.eqb str "$t2" then 10
  else if String.eqb str "$t3" then 11
  else if String.eqb str "$s0" then 16
  else if String.eqb str "$s1" then 17
  else if String.eqb str "$s2" then 18
  else if String.eqb str "$s3" then 19
  else if String.eqb str "$sp" then 29
  else if String.eqb str "$fp" then 30
  else if String.eqb str "$ra" then 31
  else -1.

End TranslateUtils.
Import TranslateUtils.

(** ** tables.c *)
Module Tables.

Definition SYMTBL_NON_UNIQUE : Z := 0.
Definition SYMTBL_UNIQUE_NAME : Z := 1.

Definition INITIAL_SIZE : nat := 5.
Definition SCALING_FACTOR : nat := 2.

(** The two structures of tables.h, as tables.c uses them: a symbol is a
    name and a [uint32_t] address; a table is a heap array [tbl] of [cap]
    slots of which the first [len] are in use, and a mode. A slot that was
    allocated and never written is [None]. *)
Record Symbol : Type := mkSymbol { name : string; addr : Z }.

Record SymbolTable : Type := mkTable {
  tbl : list (option Symbol);
  len : nat;
  cap : nat;
  mode : Z
}.

(** [create_table]. *)
Definition create_table (m : Z) : SymbolTable :=
  mkTable (replicate INITIAL_SIZE None) 0 INITIAL_SIZE m.

(** [realloc(p, n * sizeof(Symbol))]: the old slots up to [n], then fresh
    ones. *)
Definition realloc (slots : list (option Symbol)) (n : nat)
    : list (option Symbol) :=
  (take n slots ++ replicate (n - length slots) None)%list.

(** The loop of [add_to_table] over the slots in use: is there an [i] with
    [strcmp(tbl[i].name, name) == 0]. *)
Fixpoint name_exists (slots : list (option Symbol)) (nm : string) : bool :=
  match slots with
  | [] => false
  | Some s :: rest => if String.eqb (name s) nm then true else name_exists rest nm
  | None :: rest => name_exists rest nm
  end.

(** [add_to_table]: the C result and the table afterwards. *)
Definition add_to_table (table : option SymbolTable) (nm : option string)
    (address : Z) : Z * option SymbolTable :=
  match table, nm with
  | Some t, Some n =>
      if negb (address mod 4 =? 0) then (-1, table)
      else if (mode t =? SYMTBL_UNIQUE_NAME)
              && name_exists (take (len t) (tbl t)) n then (-1, table)
      else
        let t1 :=
          if Nat.eqb (len t) (cap t)
          then mkTable (realloc (tbl t) (len t * SCALING_FACTOR)) (len t)
                       (cap t * SCALING_FACTOR) (mode t)
          else t in
        (0, Some (mkTable (<[len t1 := Some (mkSymbol n address)]> (tbl t1))
                          (len t1 + 1) (cap t1) (mode t1)))
  | _, _ => (-1, table)
  end.

(** The loop of [get_addr_for_symbol] over the slots in use. *)
Fixpoint first_addr (slots : list (option Symbol)) (nm : string) : Z :=
  match slots with
  | [] => -1
  | Some s :: rest => if String.eqb (name s) nm then addr s else first_addr rest nm
  | None :: rest => first_addr rest nm
  end.

(** [get_addr_for_symbol], an [int64_t]. *)
Definition get_addr_for_symbol (table : option SymbolTable) (nm : string) : Z :=
  match table with
  | None => -1
  | Some t => first_addr (take (len t) (tbl t)) nm
  end.

(** The entries of a table in insertion order. *)
Definition symbols (t : SymbolTable) : list Symbol :=
  omap id (take (len t) (tbl t)).

(** What [create_table] establishes and [add_to_table] maintains: the array
    has [cap] slots, the slots in use are within it and are initialised with
    word-aligned [uint32_t] addresses. *)
Definition table_ok (t : SymbolTable) : Prop :=
  length (tbl t) = cap t /\ (len t <= cap t)%nat /\ (0 < cap t)%nat /\
  forall i, (i < len t)%nat ->
    exists s, tbl t !! i = Some (Some s) /\
              addr s mod 4 = 0 /\ 0 <= addr s < 2 ^ 32.

(** Successive calls of [add_to_table] on one table, with their results. *)
Fixpoint add_all (table : option SymbolTable) (es : list (string * Z))
    : list Z * option SymbolTable :=
  match es with
  | [] => ([], table)
  | (n, a) :: rest =>
      let '(r, table1) := add_to_table table (Some n) a in
      let '(rs, table2) := add_all table1 rest in
      (r :: rs, table2)
  end.

End Tables.
Import Tables.

(** ** translate.c *)
Module Translate.

Definition TWO_POW_SEVENTEEN : Z := 131072.

(** What a writer hands back: its C result and the text it wrote. *)
Definition result : Type := Z * string.

Definition failure (r : Z) : result := (r, EmptyString).

(** The loop [for (i = 0; i < num_args; i++) if (!args[i]) return ...]. *)
Definition has_null (args : list (option string)) : bool :=
  existsb (fun a => negb (is_some a)) args.

Definition present (args : list (option string)) : list string :=
  omap id args.

(** [write_pass_one]. [None] stands for a read of the uninitialised [imm],
    which [li_always_reads_a_number] below shows never to happen. *)
Definition write_pass_one (nm : string) (args : list (option string))
    : option result :=
  if has_null args then Some (failure 0)
  else if String.eqb nm "li" then
    match args with
    | [Some a0; Some a1] =>
        let '(_, imm_cell) := translate_num None (Some a1) LONG_MIN LONG_MAX in
        match imm_cell with
        | None => None
        | Some imm =>
            if imm <? 65536
            then Some (1, "addiu " ++ a0 ++ " $0 " ++ a1 ++ newline)
            else Some (2, "lui $at " ++ print_ld (Z.shiftr imm 16) ++ newline
                          ++ "ori " ++ a0 ++ " $at "
                          ++ print_ld (Z.land imm 0xFFFF) ++ newline)
        end
    | _ => Some (failure 0)
    end
  else if String.eqb nm "push" then
    match args with
    | [Some a0] =>
        Some (2, "addiu $sp $sp -4" ++ newline
                 ++ "sw " ++ a0 ++ " 0($sp)" ++ newline)
    | _ => Some (failure 0)
    end
  else if String.eqb nm "pop" then
    match args with
    | [Some a0] =>
        Some (2, "lw " ++ a0 ++ " 0($sp)" ++ newline
                 ++ "addiu $sp $sp 4" ++ newline)
    | _ => Some (failure 0)
    end
  else if String.eqb nm "mod" then
    match args with
    | [Some a0; Some a1; Some a2] =>
        Some (2, "div " ++ a1 ++ " " ++ a2 ++ newline
                 ++ "mfhi " ++ a0 ++ newline)
    | _ => Some (failure 0)
    end
  else if String.eqb nm "subu" then
    match args with
    | [Some a0; Some a1; Some a2] =>
        Some (4, "addiu $at $0 -1" ++ newline
                 ++ "xor $at $at " ++ a2 ++ newline
                 ++ "addiu $at $at 1" ++ newline
                 ++ "addu " ++ a0 ++ " " ++ a1 ++ " $at" ++ newline)
    | _ => Some (failure 0)
    end
  else Some (1, write_inst_string nm (present args)).

(** [write_rtype]. *)
Definition write_rtype (funct : Z) (args : list (option string)) : result :=
  match args with
  | [Some a0; Some a1; Some a2] =>
      let rd := translate_reg a0 in
      let rs := translate_reg a1 in
      let rt := translate_reg a2 in
      if (rd =? -1) || (rt =? -1) || (rs =? -1) then failure (-1)
      else (0, write_inst_hex
                 (to_uint32 (funct + shl_int rd 11 + shl_int rt 16
                             + shl_int rs 21)))
  | _ => failure (-1)
  end.

(** [write_shift]. *)
Definition write_shift (funct : Z) (args : list (option string)) : result :=
  match args with
  | [Some a0; Some a1; Some a2] =>
      let rd := translate_reg a0 in
      let rt := translate_reg a1 in
      let '(err, shamt_cell) := translate_num None (Some a2) 0 31 in
      if (err =? -1) || (rd =? -1) || (rt =? -1) then failure (-1)
      else
        match shamt_cell with
        | Some shamt =>
            (0, write_inst_hex
                  (to_uint32 (funct + Z.shiftl shamt 6 + shl_int rd 11
                              + shl_int rt 16)))
        | None => failure (-1)
        end
  | _ => failure (-1)
  end.

(** [write_jr]. The argument is passed to [translate_reg] without a NULL
    test: [None] stands for that dereference. The word is written before the
    register is examined. *)
Definition write_jr (funct : Z) (args : list (option string))
    : option result :=
  match args with
  | [a0] =>
      match a0 with
      | None => None
      | Some s =>
          let rs := translate_reg s in
          let instruction := to_uint32 (funct + shl_int rs 21) in
          let written := write_inst_hex instruction in
          if rs =? -1 then Some (-1, written) else Some (0, written)
      end
  | _ => Some (failure (-1))
  end.

(** The I-type word shared by [write_addiu], [write_ori] and [write_mem]. *)
Definition itype_word (opcode rs rt imm : Z) : Z :=
  to_uint32 (Z.land imm 0xFFFF + shl_int rt 16 + shl_int rs 21
             + shl_int opcode 26).

(** [write_addiu]. *)
Definition write_addiu (opcode : Z) (args : list (option string)) : result :=
  match args with
  | [Some a0; Some a1; Some a2] =>
      let rt := translate_reg a0 in
      let rs := translate_reg a1 in
      let '(err, imm_cell) :=
        translate_num None (Some a2) INT16_MIN INT16_MAX in
      if (err =? -1) || (rt =? -1) || (rs =? -1) then failure (-1)
      else
        match imm_cell with
        | Some imm => (0, write_inst_hex (itype_word opcode rs rt imm))
        | None => failure (-1)
        end
  | _ => failure (-1)
  end.

(** [write_ori]. *)
Definition write_ori (opcode : Z) (args : list (option string)) : result :=
  match args with
  | [Some a0; Some a1; Some a2] =>
      let rt := translate_reg a0 in
      let rs := translate_reg a1 in
      let '(err, imm_cell) := translate_num None (Some a2) 0 UINT16_MAX in
      if (err =? -1) || (rt =? -1) || (rs =? -1) then failure (-1)
      else
        match imm_cell with
        | Some imm => (0, write_inst_hex (itype_word opcode rs rt imm))
        | None => failure (-1)
        end
  | _ => failure (-1)
  end.

(** [write_mult_div]. *)
Definition write_mult_div (funct : Z) (args : list (option string)) : result :=
  match args with
  | [Some a0; Some a1] =>
      let rs := translate_reg a0 in
      let rt := translate_reg a1 in
      if (rs =? -1) || (rt =? -1) then failure (-1)
      else (0, write_inst_hex
                 (to_uint32 (funct + shl_int rt 16 + shl_int rs 21)))
  | _ => failure (-1)
  end.

(** [write_mfhi_mflo]. *)
Definition write_mfhi_mflo (funct : Z) (args : list (option string)) : result :=
  match args with
  | [Some a0] =>
      let rd := translate_reg a0 in
      if rd =? -1 then failure (-1)
      else (0, write_inst_hex (to_uint32 (funct + shl_int rd 11)))
  | _ => failure (-1)
  end.

(** [write_lui]. *)
Definition write_lui (opcode : Z) (args : list (option string)) : result :=
  match args with
  | [Some a0; Some a1] =>
      let rt := translate_reg a0 in
      let '(err, imm_cell) := translate_num None (Some a1) 0 UINT16_MAX in
      if (err =? -1) || (rt =? -1) then failure (-1)
      else
        match imm_cell with
        | Some imm =>
            (0, write_inst_hex
                  (to_uint32 (Z.land imm 0xFFFF + shl_int rt 16
                              + shl_int opcode 26)))
        | None => failure (-1)
        end
  | _ => failure (-1)
  end.

(** [write_mem]: the arguments are rt, the immediate, rs. *)
Definition write_mem (opcode : Z) (args : list (option string)) : result :=
  match args with
  | [Some a0; Some a1; Some a2] =>
      let rt := translate_reg a0 in
      let rs := translate_reg a2 in
      let '(err, imm_cell) :=
        translate_num None (Some a1) INT16_MIN INT16_MAX in
      if (err =? -1) || (rt =? -1) || (rs =? -1) then failure (-1)
      else
        match imm_cell with
        | Some imm => (0, write_inst_hex (itype_word opcode rs rt imm))
        | None => failure (-1)
        end
  | _ => failure (-1)
  end.

(** [can_branch_to]: both parameters are [uint32_t], [diff] is [int32_t]. *)
Definition can_branch_to (src_addr dest_addr : Z) : bool :=
  let diff := to_int32 (to_uint32 (dest_addr - src_addr)) in
  ((diff >=? 0) && (diff <=? TWO_POW_SEVENTEEN))
  || ((diff <? 0) && (diff >=? - (TWO_POW_SEVENTEEN - 4))).

(** [write_branch]. [label_addr] is an [int] holding the [int64_t] result of
    the lookup; against the [uint32_t] [addr] it is converted to unsigned,
    so the subtraction and the division by 4 are unsigned. *)
Definition write_branch (opcode : Z) (args : list (option string))
    (address : Z) (symtbl : option SymbolTable) : result :=
  match args with
  | [Some a0; Some a1; Some a2] =>
      let rs := translate_reg a0 in
      let rt := translate_reg a1 in
      let label_addr := to_int32 (get_addr_for_symbol symtbl a2) in
      if (label_addr =? -1)
         || negb (can_branch_to address (to_uint32 label_addr))
         || (rt =? -1) || (rs =? -1)
      then failure (-1)
      else
        let offset := to_int32 (to_uint32 (label_addr - address - 4) / 4) in
        (0, write_inst_hex
              (to_uint32 (Z.land offset 0xffff + shl_int rt 16
                          + shl_int rs 21 + shl_int opcode 26)))
  | _ => failure (-1)
  end.

(** [write_jump]: the result, the text written and the relocation table
    afterwards. The result of [add_to_table] is dropped. *)
Definition write_jump (opcode : Z) (args : list (option string))
    (address : Z) (reltbl : option SymbolTable)
    : result * option SymbolTable :=
  match args with
  | [a0] =>
      let '(_, reltbl1) := add_to_table reltbl a0 address in
      ((0, write_inst_hex (to_uint32 (shl_int opcode 26))), reltbl1)
  | _ => (failure (-1), reltbl)
  end.

Definition keep (reltbl : option SymbolTable) (r : result)
    : option (result * option SymbolTable) :=
  Some (r, reltbl).

(** [translate_inst], for non-NULL [output], [name] and [args]. *)
Definition translate_inst (nm : string) (args : list (option string))
    (address : Z) (symtbl reltbl : option SymbolTable)
    : option (result * option SymbolTable) :=
  if Nat.eqb (length args) 0 then keep reltbl (failure (-1))
  else if (String.eqb nm "beq" || String.eqb nm "bne")
          && negb (is_some symtbl) then keep reltbl (failure (-1))
  else if (String.eqb nm "j" || String.eqb nm "jal")
          && negb (is_some reltbl) then keep reltbl (failure (-1))
  else if String.eqb nm "addu" then keep reltbl (write_rtype 0x21 args)
  else if String.eqb nm "or" then keep reltbl (write_rtype 0x25 args)
  else if String.eqb nm "slt" then keep reltbl (write_rtype 0x2a args)
  else if String.eqb nm "sltu" then keep reltbl (write_rtype 0x2b args)
  else if String.eqb nm "sll" then keep reltbl (write_shift 0x00 args)
  else if String.eqb nm "xor" then keep reltbl (write_rtype 0x26 args)
  else if String.eqb nm "jr" then
    match write_jr 0x08 args with
    | Some r => keep reltbl r
    | None => None
    end
  else if String.eqb nm "addiu" then keep reltbl (write_addiu 0x09 args)
  else if String.eqb nm "ori" then keep reltbl (write_ori 0x0d args)
  else if String.eqb nm "lui" then keep reltbl (write_lui 0x0f args)
  else if String.eqb nm "lb" then keep reltbl (write_mem 0x20 args)
  else if String.eqb nm "lbu" then keep reltbl (write_mem 0x24 args)
  else if String.eqb nm "lw" then keep reltbl (write_mem 0x23 args)
  else if String.eqb nm "sb" then keep reltbl (write_mem 0x28 args)
  else if String.eqb nm "sw" then keep reltbl (write_mem 0x2b args)
  else if String.eqb nm "beq" then
    keep reltbl (write_branch 0x04 args address symtbl)
  else if String.eqb nm "bne" then
    keep reltbl (write_branch 0x05 args address symtbl)
  else if String.eqb nm "j" then Some (write_jump 0x02 args address reltbl)
  else if String.eqb nm "jal" then Some (write_jump 0x03 args address reltbl)
  else if String.eqb nm "mult" then keep reltbl (write_mult_div 0x18 args)
  else if String.eqb nm "div" then keep reltbl (write_mult_div 0x1a args)
  else if String.eqb nm "mfhi" then keep reltbl (write_mfhi_mflo 0x10 args)
  else if String.eqb nm "mflo" then keep reltbl (write_mfhi_mflo 0x12 args)
  else keep reltbl (failure (-1)).

End Translate.
Import Translate.

(** ** translate_utils.c: labels *)
Module Labels.

(** [isalpha] and [isalnum] in the C locale; no character above 127 is a
    letter or a digit. *)
Definition isalpha (c : ascii) : bool :=
  ((65 <=? code c) && (code c <=? 90)) || ((97 <=? code c) && (code c <=? 122)).

Definition isdigit (c : ascii) : bool := (48 <=? code c) && (code c <=? 57).

Definition isalnum (c : ascii) : bool := isalpha c || isdigit c.

Definition is_underscore (c : ascii) : bool := code c =? 95.

(** The loop of [is_valid_label], with its flag [first]. *)
Fixpoint label_loop (first : bool) (str : string) : Z :=
  match str with
  | EmptyString => if first then 0 else 1
  | String c rest =>
      if first then
        if negb (isalpha c) && negb (is_underscore c) then 0
        else label_loop false rest
      else if negb (isalnum c) && negb (is_underscore c) then 0
      else label_loop first rest
  end.

(** [is_valid_label]. *)
Definition is_valid_label (str : option string) : Z :=
  match str with
  | None => 0
  | Some s => label_loop true s
  end.

End Labels.
Import Labels.

(** ** tables.c: writing a table out *)
Module TablesOutput.

Definition tab : string := String (ascii_of_N 9) EmptyString.

(** [printf("%u", v)] for a [uint32_t]. *)
Definition print_u (v : Z) : string :=
  NilZero.string_of_uint (N.to_uint (Z.to_N v)).

(** [write_symbol]. *)
Definition write_symbol (address : Z) (nm : string) : string :=
  print_u address ++ tab ++ nm ++ newline.

(** The loop of [write_table] over the slots in use. *)
Fixpoint write_slots (slots : list (option Symbol)) : string :=
  match slots with
  | [] => EmptyString
  | Some s :: rest => write_symbol (addr s) (name s) ++ write_slots rest
  | None :: rest => write_slots rest
  end.

(** [write_table], for a non-NULL table. *)
Definition write_table (t : SymbolTable) : string :=
  write_slots (take (len t) (tbl t)).

End TablesOutput.
Import TablesOutput.

(** ** Reading a written word or line back *)

(** Bits [lo .. lo + width - 1] of a word. *)
Definition field (w lo width : Z) : Z := Z.land (Z.shiftr w lo) (Z.ones width).

(** A 16-bit field read as a two's complement number. *)
Definition sign_extend16 (x : Z) : Z := if x <? 2 ^ 15 then x else x - 2 ^ 16.

(** Number of newline characters of a text. *)
Fixpoint count_lines (s : string) : Z :=
  match s with
  | EmptyString => 0
  | String c rest => (if code c =? 10 then 1 else 0) + count_lines rest
  end.

(** The mnemonics [translate_inst] dispatches on. *)
Definition mnemonics : list string :=
  ["addu"; "or"; "slt"; "sltu"; "sll"; "xor"; "jr"; "addiu"; "ori"; "lui";
   "lb"; "lbu"; "lw"; "sb"; "sw"; "beq"; "bne"; "j"; "jal"; "mult"; "div";
   "mfhi"; "mflo"].

(** Every character of a string satisfies [p]. *)
Fixpoint all_chars (p : ascii -> bool) (s : string) : bool :=
  match s with
  | EmptyString => true
  | String c rest => p c && all_chars p rest
  end.

Definition is_lower_hex (c : ascii) : bool :=
  isdigit c || ((97 <=? code c) && (code c <=? 102)).

Definition no_newline (s : string) : bool :=
  all_chars (fun c => negb (code c =? 10)) s.

(** The insertions that [add_to_table] accepted (result 0), given the calls
    and their results. *)
Fixpoint accepted (es : list (string * Z)) (rets : list Z)
    : list (string * Z) :=
  match es, rets with
  | e :: es', r :: rets' =>
      if r =? 0 then e :: accepted es' rets' else accepted es' rets'
  | _, _ => []
  end.

(** The lines [write_table] prints for a list of (name, address). *)
Fixpoint table_lines (es : list (string * Z)) : string :=
  match es with
  | [] => EmptyString
  | (n, a) :: rest => write_symbol a n ++ table_lines rest
  end.

(** What an encoder may hand back: failure with nothing written, or success
    with one line holding a 32-bit word. *)
Definition well_shaped (r : result) : Prop :=
  r = (-1, EmptyString) \/
  exists w, 0 <= w < 2 ^ 32 /\ r = (0, write_inst_hex w).

(** ** Definitions used to state the properties *)

(** The register spellings [translate_reg] knows, with their numbers. *)
Definition canonical_registers : list (string * Z) :=
  [("$zero", 0); ("$0", 0); ("$at", 1); ("$v0", 2);
   ("$a0", 4); ("$a1", 5); ("$a2", 6); ("$a3", 7);
   ("$t0", 8); ("$t1", 9); ("$t2", 10); ("$t3", 11);
   ("$s0", 16); ("$s1", 17); ("$s2", 18); ("$s3", 19);
   ("$sp", 29); ("$fp", 30); ("$ra", 31)].

(** The capacity of a table that started at 5 slots and only ever doubled
    when full: 5 times a power of two, and the least one that holds the
    entries. *)
Definition cap_shape (t : SymbolTable) : Prop :=
  (exists k : nat, cap t = (5 * 2 ^ k)%nat) /\
  (cap t = 5%nat \/ (cap t < 2 * len t)%nat).

(** * Properties *)

(** ** The table as a list of entries *)

Lemma take_store (l : list (option Symbol)) (n : nat) (x : option Symbol) :
  (n < length l)%nat -> take (S n) (<[n := x]> l) = (take n l ++ [x])%list.
Proof.
  intros H. rewrite (take_S_r _ _ x).
  - by rewrite take_insert_ge.
  - by apply list_lookup_insert_eq.
Qed.

Lemma realloc_length (slots : list (option Symbol)) (n : nat) :
  length (realloc slots n) = n.
Proof.
  unfold realloc. rewrite length_app, length_take, length_replicate. lia.
Qed.

Lemma realloc_keeps (slots : list (option Symbol)) (n k : nat) :
  (k <= length slots)%nat -> (length slots <= n)%nat ->
  take k (realloc slots n) = take k slots.
Proof.
  intros Hk Hn. unfold realloc. rewrite (take_ge slots n) by lia.
  by rewrite take_app_le.
Qed.

Lemma name_exists_spec (slots : list (option Symbol)) (n : string) :
  name_exists slots n = true <-> In n (map name (omap id slots)).
Proof.
  induction slots as [|[s|] rest IH]; simpl.
  - split; [discriminate | tauto].
  - destruct (String.eqb_spec (name s) n) as [E|E].
    + split; auto.
    + rewrite IH. split; [auto | intros [H|H]; [contradiction | assumption]].
  - exact IH.
Qed.

Lemma first_addr_skip (slots : list (option Symbol)) (n : string) :
  first_addr slots n = first_addr (map Some (omap id slots)) n.
Proof.
  induction slots as [|[s|] rest IH]; simpl; auto.
  by rewrite IH.
Qed.

Lemma first_addr_first (l1 l2 : list Symbol) (s : Symbol) (n : string) :
  name s = n -> (forall s', In s' l1 -> name s' <> n) ->
  first_addr (map Some (l1 ++ s :: l2)) n = addr s.
Proof.
  intros Hs. induction l1 as [|x l1 IH]; simpl; intros Hl1.
  - rewrite Hs, String.eqb_refl. reflexivity.
  - destruct (String.eqb_spec (name x) n) as [E|E].
    + exfalso. apply (Hl1 x); auto.
    + apply IH. intros s' H. apply Hl1. auto.
Qed.

Lemma first_addr_none (l : list Symbol) (n : string) :
  (forall s, In s l -> name s <> n) -> first_addr (map Some l) n = -1.
Proof.
  induction l as [|x l IH]; simpl; intros H; [reflexivity|].
  destruct (String.eqb_spec (name x) n) as [E|E].
  - exfalso. apply (H x); auto.
  - apply IH. intros s Hs. apply H. auto.
Qed.

Lemma first_addr_app_found (l1 l2 : list Symbol) (n : string) :
  first_addr (map Some l1) n <> -1 ->
  first_addr (map Some (l1 ++ l2)) n = first_addr (map Some l1) n.
Proof.
  induction l1 as [|x l1 IH]; simpl; intros H; [congruence|].
  destruct (String.eqb (name x) n); auto.
Qed.

Lemma first_addr_in (l : list Symbol) (n : string) :
  first_addr (map Some l) n = -1 \/
  exists s, In s l /\ name s = n /\ first_addr (map Some l) n = addr s.
Proof.
  induction l as [|x l IH]; simpl; [by left|].
  destruct (String.eqb_spec (name x) n) as [E|E].
  - right. exists x. auto.
  - destruct IH as [IH|(s & Hin & Hn & Hs)]; [by left|].
    right. exists s. auto.
Qed.

Lemma get_addr_symbols (t : SymbolTable) (n : string) :
  get_addr_for_symbol (Some t) n = first_addr (map Some (symbols t)) n.
Proof. unfold get_addr_for_symbol, symbols. apply first_addr_skip. Qed.

Lemma initialised_slots (l : list (option Symbol)) :
  (forall i, (i < length l)%nat -> exists s, l !! i = Some (Some s)) ->
  l = map Some (omap id l).
Proof.
  induction l as [|[s|] l IH]; intros H; simpl in *.
  - reflexivity.
  - f_equal. apply IH. intros i Hi. apply (H (S i)). lia.
  - destruct (H 0%nat) as (s & E); [lia|]. discriminate.
Qed.

Lemma table_ok_slots (t : SymbolTable) :
  table_ok t -> take (len t) (tbl t) = map Some (symbols t).
Proof.
  intros (Hlen & Hle & _ & Hs). unfold symbols.
  apply initialised_slots. intros i Hi.
  rewrite length_take in Hi.
  destruct (Hs i) as (s & E & _); [lia|]. exists s.
  rewrite lookup_take_lt by lia. done.
Qed.

Lemma symbols_aligned (t : SymbolTable) (s : Symbol) :
  table_ok t -> In s (symbols t) -> addr s mod 4 = 0 /\ 0 <= addr s < 2 ^ 32.
Proof.
  intros Hok Hin. pose proof (table_ok_slots t Hok) as E.
  destruct Hok as (Hlen & Hle & _ & Hs).
  apply list_elem_of_In, list_elem_of_lookup in Hin. destruct Hin as [i Hi].
  assert (take (len t) (tbl t) !! i = Some (Some s)) as Hi'.
  { rewrite E, list_lookup_fmap, Hi. done. }
  assert (i < len t)%nat as Hlt.
  { apply lookup_lt_Some in Hi'. rewrite length_take in Hi'. lia. }
  rewrite lookup_take_lt in Hi' by lia.
  destruct (Hs i Hlt) as (s' & E' & Ha). congruence.
Qed.

Lemma create_table_ok (m : Z) :
  table_ok (create_table m) /\ symbols (create_table m) = [] /\
  cap (create_table m) = 5%nat /\ mode (create_table m) = m.
Proof.
  split; [|auto]. unfold table_ok, create_table, INITIAL_SIZE. simpl.
  repeat split; lia.
Qed.

Lemma add_to_table_appends (t : SymbolTable) (n : string) (a : Z) :
  table_ok t -> a mod 4 = 0 -> 0 <= a < 2 ^ 32 ->
  (mode t = SYMTBL_UNIQUE_NAME -> ~ In n (map name (symbols t))) ->
  exists t',
    add_to_table (Some t) (Some n) a = (0, Some t') /\
    table_ok t' /\
    symbols t' = (symbols t ++ [mkSymbol n a])%list /\
    mode t' = mode t /\ len t' = S (len t) /\
    cap t' = (if Nat.eqb (len t) (cap t) then cap t * 2 else cap t)%nat.
Proof.
  intros Hok Ha Hr Hu. pose proof Hok as (Hlen & Hle & Hpos & Hs).
  unfold add_to_table. rewrite Ha. simpl negb. cbv iota.
  assert ((mode t =? SYMTBL_UNIQUE_NAME) && name_exists (take (len t) (tbl t)) n = false) as ->.
  { destruct (Z.eqb_spec (mode t) SYMTBL_UNIQUE_NAME) as [E|E]; [|reflexivity].
    simpl. destruct (name_exists (take (len t) (tbl t)) n) eqn:Hx; [|reflexivity].
    exfalso. apply (Hu E). apply name_exists_spec in Hx. exact Hx. }
  eexists. split; [reflexivity|].
  set (t1 := if Nat.eqb (len t) (cap t) then _ else t).
  assert (length (tbl t1) = cap t1 /\ (len t < cap t1)%nat /\ len t1 = len t
          /\ mode t1 = mode t /\ take (len t) (tbl t1) = take (len t) (tbl t)
          /\ cap t1 = (if Nat.eqb (len t) (cap t) then cap t * 2 else cap t)%nat)
    as (L1 & L2 & L3 & L4 & L5 & L6).
  { subst t1. destruct (Nat.eqb_spec (len t) (cap t)) as [E|E]; simpl.
    - rewrite realloc_length. unfold SCALING_FACTOR.
      repeat split; try lia. apply realloc_keeps; lia.
    - repeat split; try lia. }
  assert (take (S (len t)) (<[len t := Some (mkSymbol n a)]> (tbl t1))
          = (take (len t) (tbl t) ++ [Some (mkSymbol n a)])%list) as HT.
  { rewrite take_store by lia. by rewrite L5. }
  rewrite L3, L4. repeat split; simpl.
  - rewrite length_insert. exact L1.
  - lia.
  - lia.
  - intros i Hi. destruct (decide (i = len t)) as [->|Hne].
    + exists (mkSymbol n a). rewrite list_lookup_insert_eq by lia. auto.
    + destruct (Hs i) as (s & E & Hal); [lia|]. exists s.
      rewrite list_lookup_insert_ne by auto. split; [|exact Hal].
      assert (take (len t) (tbl t1) !! i = take (len t) (tbl t) !! i) as HH by (by rewrite L5).
      rewrite !lookup_take_lt in HH by lia. by rewrite HH.
  - unfold symbols. simpl. replace (len t + 1)%nat with (S (len t)) by lia.
    rewrite HT, omap_app. reflexivity.
  - lia.
  - exact L6.
Qed.
Lemma add_to_table_success (t : SymbolTable) (n : string) (a : Z) (r : option SymbolTable) :
  add_to_table (Some t) (Some n) a = (0, r) ->
  a mod 4 = 0 /\
  (mode t = SYMTBL_UNIQUE_NAME -> ~ In n (map name (symbols t))).
Proof.
  unfold add_to_table. destruct (Z.eqb_spec (a mod 4) 0) as [E|E]; simpl; [|discriminate].
  destruct (Z.eqb_spec (mode t) SYMTBL_UNIQUE_NAME) as [M|M]; simpl.
  - destruct (name_exists (take (len t) (tbl t)) n) eqn:X; [discriminate|].
    intros _. split; [exact E|]. intros _ Hin.
    apply name_exists_spec in Hin. unfold symbols in Hin. congruence.
  - intros _. split; [exact E|]. intros; contradiction.
Qed.

Lemma cap_shape_step (t t' : SymbolTable) :
  table_ok t -> cap_shape t -> len t' = S (len t) ->
  cap t' = (if Nat.eqb (len t) (cap t) then cap t * 2 else cap t)%nat ->
  cap_shape t' /\ (cap t <= cap t')%nat.
Proof.
  intros (_ & Hle & Hpos & _) [[k Hk] Hm] Hl Hc.
  destruct (Nat.eqb_spec (len t) (cap t)) as [E|E].
  - split; [|lia]. split.
    + exists (S k). rewrite Hc, Hk. rewrite Nat.pow_succ_r'. lia.
    + right. lia.
  - split; [|lia]. split.
    + exists k. lia.
    + destruct Hm as [Hm|Hm]; [left|right]; lia.
Qed.

Lemma add_all_valid (es : list (string * Z)) : forall (t : SymbolTable),
  table_ok t ->
  Forall (fun e => e.2 mod 4 = 0 /\ 0 <= e.2 < 2 ^ 32) es ->
  (mode t = SYMTBL_UNIQUE_NAME ->
     NoDup (map name (symbols t) ++ map fst es)%list) ->
  exists t',
    add_all (Some t) es = (replicate (length es) 0, Some t') /\
    table_ok t' /\
    symbols t' = (symbols t ++ map (fun e => mkSymbol e.1 e.2) es)%list /\
    mode t' = mode t /\ (cap t <= cap t')%nat /\
    (cap_shape t -> cap_shape t').
Proof.
  induction es as [|[n a] es IH]; intros t Hok Hv Hu.
  - exists t. simpl. rewrite app_nil_r. split_and!; auto.
  - apply Forall_cons in Hv. destruct Hv as [[Ha Hr] Hv]. simpl in Ha, Hr.
    destruct (add_to_table_appends t n a Hok Ha Hr) as (t1 & E1 & Hok1 & S1 & M1 & L1 & C1).
    { intros Hm Hin. specialize (Hu Hm). simpl in Hu.
      apply NoDup_app in Hu. destruct Hu as (_ & Hu & _).
      apply (Hu n); [by apply list_elem_of_In | left]. }
    destruct (IH t1 Hok1 Hv) as (t' & E' & Hok' & S' & M' & C' & Sh').
    { intros Hm. rewrite M1 in Hm. specialize (Hu Hm).
      rewrite S1, map_app, <- app_assoc. exact Hu. }
    exists t'. cbn [add_all]. rewrite E1, E'. simpl.
    rewrite S', S1, <- app_assoc. simpl.
    split_and!; auto; try congruence.
    + destruct (Nat.eqb (len t) (cap t)); lia.
    + intros H. apply Sh'. apply (cap_shape_step t t1 Hok H L1 C1).
Qed.

(** ** Machine arithmetic and bit fields *)

(** Machine arithmetic *)
Lemma to_int32_small (x : Z) : - 2 ^ 31 <= x < 2 ^ 31 -> to_int32 x = x.
Proof. intros H. unfold to_int32. rewrite Z.mod_small; lia. Qed.

Lemma to_uint32_small (x : Z) : 0 <= x < 2 ^ 32 -> to_uint32 x = x.
Proof. intros H. unfold to_uint32. apply Z.mod_small; lia. Qed.

Lemma to_uint32_range (x : Z) : 0 <= to_uint32 x < 2 ^ 32.
Proof. unfold to_uint32. apply Z.mod_pos_bound. lia. Qed.

Lemma to_int32_range (x : Z) : - 2 ^ 31 <= to_int32 x < 2 ^ 31.
Proof.
  unfold to_int32. pose proof (Z.mod_pos_bound (x + 2 ^ 31) (2 ^ 32)). lia.
Qed.

Lemma to_uint32_of_int32 (x : Z) : to_uint32 (to_int32 x) = to_uint32 x.
Proof.
  unfold to_uint32, to_int32.
  rewrite Zminus_mod_idemp_l. f_equal. lia.
Qed.

Lemma to_int32_of_uint32 (x : Z) : to_int32 (to_uint32 x) = to_int32 x.
Proof.
  unfold to_uint32, to_int32. rewrite Zplus_mod_idemp_l. reflexivity.
Qed.

Lemma to_uint32_sub_l (x y : Z) : to_uint32 (to_uint32 x - y) = to_uint32 (x - y).
Proof. unfold to_uint32. apply Zminus_mod_idemp_l. Qed.

Lemma to_uint32_add_int32 (x y : Z) :
  to_uint32 (x + to_int32 y) = to_uint32 (x + y).
Proof.
  unfold to_uint32. rewrite <- Zplus_mod_idemp_r.
  fold (to_uint32 (to_int32 y)). rewrite to_uint32_of_int32.
  unfold to_uint32. rewrite Zplus_mod_idemp_r. reflexivity.
Qed.

Lemma to_int32_aligned (x : Z) : to_int32 x mod 4 = x mod 4.
Proof.
  unfold to_int32.
  rewrite (Z.mod_eq (x + 2 ^ 31) (2 ^ 32)) by lia.
  replace (x + 2 ^ 31 - 2 ^ 32 * ((x + 2 ^ 31) / 2 ^ 32) - 2 ^ 31)
    with (x + (- 2 ^ 30 * ((x + 2 ^ 31) / 2 ^ 32)) * 4) by lia.
  apply Z.mod_add. lia.
Qed.

Lemma land_shiftl_disjoint (a b n : Z) :
  0 <= n -> 0 <= a < 2 ^ n -> Z.land a (Z.shiftl b n) = 0.
Proof.
  intros Hn Ha. apply Z.bits_inj'. intros i Hi.
  rewrite Z.land_spec, Z.bits_0.
  destruct (Z.lt_ge_cases i n) as [L|G].
  - rewrite (Z.shiftl_spec_low b n i L). apply andb_false_r.
  - assert (Z.testbit a i = false) as ->; [|reflexivity].
    destruct (Z.eq_dec a 0) as [->|Hz]; [apply Z.bits_0|].
    apply Z.bits_above_log2; [lia|].
    apply Z.lt_le_trans with n; [|exact G].
    apply Z.log2_lt_pow2; lia.
Qed.

Lemma fields_disjoint (imm rt rs op : Z) :
  0 <= imm < 2 ^ 16 -> 0 <= rt < 32 -> 0 <= rs < 32 -> 0 <= op < 64 ->
  imm + Z.shiftl rt 16 + Z.shiftl rs 21 + Z.shiftl op 26
  = Z.lor (Z.lor (Z.lor imm (Z.shiftl rt 16)) (Z.shiftl rs 21)) (Z.shiftl op 26)
  /\ 0 <= imm + Z.shiftl rt 16 + Z.shiftl rs 21 + Z.shiftl op 26 < 2 ^ 32.
Proof.
  intros Hi Ht Hs Ho.
  assert (imm + Z.shiftl rt 16 = Z.lor imm (Z.shiftl rt 16)) as E1.
  { apply Z.add_nocarry_lor, land_shiftl_disjoint; lia. }
  assert (imm + Z.shiftl rt 16 + Z.shiftl rs 21
          = Z.lor (Z.lor imm (Z.shiftl rt 16)) (Z.shiftl rs 21)) as E2.
  { rewrite <- E1. apply Z.add_nocarry_lor, land_shiftl_disjoint; [lia|].
    rewrite Z.shiftl_mul_pow2 by lia. lia. }
  split.
  - rewrite <- E2. apply Z.add_nocarry_lor, land_shiftl_disjoint; [lia|].
    rewrite !Z.shiftl_mul_pow2 by lia. lia.
  - rewrite !Z.shiftl_mul_pow2 by lia. lia.
Qed.

Lemma translate_reg_range (s : string) :
  translate_reg s <> -1 -> 0 <= translate_reg s < 32.
Proof.
  unfold translate_reg.
  repeat (destruct (String.eqb s _); [lia|]). congruence.
Qed.

Lemma shl_int_small (x n : Z) :
  0 <= n -> 0 <= x -> x * 2 ^ n < 2 ^ 31 -> shl_int x n = Z.shiftl x n.
Proof.
  intros Hn Hx H. unfold shl_int. rewrite Z.shiftl_mul_pow2 by lia.
  apply to_int32_small. nia.
Qed.

Lemma offset_low_bits (d : Z) :
  Z.land (to_int32 (to_uint32 d / 4)) 0xffff = Z.land (d / 4) 0xffff.
Proof.
  assert (0 <= to_uint32 d / 4 < 2 ^ 30) as Hq.
  { pose proof (to_uint32_range d). split.
    - apply Z.div_pos; lia.
    - apply Z.div_lt_upper_bound; lia. }
  rewrite to_int32_small by lia.
  change 0xffff with (Z.ones 16). rewrite !Z.land_ones by lia.
  unfold to_uint32. rewrite (Z.mod_eq d (2 ^ 32)) by lia.
  replace (d - 2 ^ 32 * (d / 2 ^ 32)) with (d + (- 2 ^ 30 * (d / 2 ^ 32)) * 4) by lia.
  rewrite Z.div_add by lia.
  replace (- 2 ^ 30 * (d / 2 ^ 32)) with ((- 2 ^ 14 * (d / 2 ^ 32)) * 2 ^ 16) by lia.
  apply Z.mod_add. lia.
Qed.

Lemma lookup_first_match_parts (t : SymbolTable) (n : string) :
  (forall l1 s l2,
     symbols t = (l1 ++ s :: l2)%list -> name s = n ->
     (forall s', In s' l1 -> name s' <> n) ->
     get_addr_for_symbol (Some t) n = addr s) /\
  ((forall s, In s (symbols t) -> name s <> n) ->
   get_addr_for_symbol (Some t) n = -1).
Proof.
  split.
  - intros l1 s l2 E Hs Hl1. rewrite get_addr_symbols, E.
    by apply first_addr_first.
  - intros H. rewrite get_addr_symbols. by apply first_addr_none.
Qed.

(** ** The symbol table *)

(** C5. [add_to_table] on a table and a name: a misaligned address is
    refused and the table is unchanged; in unique mode a name already present
    is refused and the table is unchanged; otherwise the call returns 0 and
    the entries are the old ones followed by the new (name, address). *)
Theorem add_to_table_cases (t : SymbolTable) (n : string) (a : Z) :
  table_ok t -> 0 <= a < 2 ^ 32 ->
  (a mod 4 <> 0 -> add_to_table (Some t) (Some n) a = (-1, Some t)) /\
  (a mod 4 = 0 -> mode t = SYMTBL_UNIQUE_NAME ->
   In n (map name (symbols t)) ->
   add_to_table (Some t) (Some n) a = (-1, Some t)) /\
  (a mod 4 = 0 ->
   ~ (mode t = SYMTBL_UNIQUE_NAME /\ In n (map name (symbols t))) ->
   exists t',
     add_to_table (Some t) (Some n) a = (0, Some t') /\
     symbols t' = (symbols t ++ [mkSymbol n a])%list /\
     mode t' = mode t /\ table_ok t').
Proof.
  intros Hok Hr. split_and!.
  - intros Ha. unfold add_to_table.
    destruct (Z.eqb_spec (a mod 4) 0); [contradiction | reflexivity].
  - intros Ha Hm Hin. unfold add_to_table. rewrite Ha, Hm. simpl.
    apply name_exists_spec in Hin. fold (symbols t) in Hin.
    unfold symbols in Hin. rewrite Hin. reflexivity.
  - intros Ha Hn.
    destruct (add_to_table_appends t n a Hok Ha Hr)
      as (t' & E & Hok' & S' & M' & _); [tauto|].
    exists t'. auto.
Qed.

Lemma add_to_table_cases_witness :
  add_to_table (Some (create_table 1)) (Some "main") 6
    = (-1, Some (create_table 1)) /\
  exists t',
    add_to_table (Some (create_table 1)) (Some "main") 8 = (0, Some t') /\
    symbols t' = [mkSymbol "main" 8].
Proof.
  split.
  - destruct (add_to_table_cases (create_table 1) "main" 6) as (H & _).
    + apply create_table_ok.
    + lia.
    + apply H. intros E. vm_compute in E. discriminate E.
  - destruct (add_to_table_cases (create_table 1) "main" 8) as (_ & _ & H).
    + apply create_table_ok.
    + lia.
    + destruct H as (t' & E & S' & _).
      * reflexivity.
      * simpl. tauto.
      * exists t'. split; [exact E | exact S'].
Defined.

(** C6. Any number of valid insertions into a table from [create_table]
    (initial capacity 5) succeed, six or more included. The entries are the
    inserted ones in insertion order; the capacity never decreases, stays 5
    times a power of two and is the least such that holds the entries
    (doubling when full); every name found after the first insertions is
    found at the same address after the later ones. *)
Theorem growth_preserves_entries (m : Z) (es1 es2 : list (string * Z)) :
  Forall (fun e => e.2 mod 4 = 0 /\ 0 <= e.2 < 2 ^ 32) (es1 ++ es2)%list ->
  (m = SYMTBL_UNIQUE_NAME -> NoDup (map fst (es1 ++ es2)%list)) ->
  exists t1 t2,
    add_all (Some (create_table m)) es1
      = (replicate (length es1) 0, Some t1) /\
    add_all (Some t1) es2 = (replicate (length es2) 0, Some t2) /\
    symbols t1 = map (fun e => mkSymbol e.1 e.2) es1 /\
    symbols t2 = map (fun e => mkSymbol e.1 e.2) (es1 ++ es2)%list /\
    len t2 = length (es1 ++ es2)%list /\
    (len t2 <= cap t2)%nat /\ (cap t1 <= cap t2)%nat /\ cap_shape t2 /\
    (forall n, get_addr_for_symbol (Some t1) n <> -1 ->
       get_addr_for_symbol (Some t2) n = get_addr_for_symbol (Some t1) n).
Proof.
  intros Hv Hu. apply Forall_app in Hv. destruct Hv as [Hv1 Hv2].
  destruct (create_table_ok m) as (Hok0 & S0 & C0 & M0).
  assert (cap_shape (create_table m)) as Sh0.
  { split; [exists 0%nat; reflexivity | left; reflexivity]. }
  destruct (add_all_valid es1 (create_table m) Hok0 Hv1)
    as (t1 & E1 & Hok1 & S1 & M1 & C1 & Sh1).
  { intros Hm. rewrite S0. simpl. rewrite M0 in Hm. specialize (Hu Hm).
    rewrite map_app in Hu. apply NoDup_app in Hu. tauto. }
  rewrite S0 in S1. simpl in S1.
  destruct (add_all_valid es2 t1 Hok1 Hv2)
    as (t2 & E2 & Hok2 & S2 & M2 & C2 & Sh2).
  { intros Hm. rewrite M1, M0 in Hm. specialize (Hu Hm).
    rewrite S1, map_map. simpl. rewrite map_app in Hu. exact Hu. }
  exists t1, t2. rewrite S1 in S2. rewrite <- map_app in S2.
  assert (len t2 = length (es1 ++ es2)%list) as L2.
  { pose proof (table_ok_slots t2 Hok2) as HT.
    apply (f_equal length) in HT.
    destruct Hok2 as (Hl & Hle & _).
    rewrite length_take, S2, !length_map in HT. lia. }
  split_and!; auto.
  - destruct Hok2 as (_ & Hle & _). exact Hle.
  - intros n Hn. rewrite !get_addr_symbols in *.
    rewrite S2, map_app, <- S1. apply first_addr_app_found. exact Hn.
Qed.

Lemma growth_preserves_entries_witness :
  exists t1 t2,
    add_all (Some (create_table 1))
      [("a", 0); ("b", 4); ("c", 8); ("d", 12); ("e", 16)]
      = ([0; 0; 0; 0; 0], Some t1) /\
    add_all (Some t1) [("f", 20)] = ([0], Some t2) /\
    cap t1 = 5%nat /\ cap t2 = 10%nat /\
    get_addr_for_symbol (Some t2) "a" = 0 /\
    get_addr_for_symbol (Some t2) "e" = 16.
Proof.
  destruct (growth_preserves_entries 1
              [("a", 0); ("b", 4); ("c", 8); ("d", 12); ("e", 16)]
              [("f", 20)])
    as (t1 & t2 & E1 & E2 & _).
  - simpl.
    repeat (apply List.Forall_cons; [simpl; split; [reflexivity | lia]|]).
    apply List.Forall_nil.
  - intros _. simpl. apply (bool_decide_unpack _). vm_compute. exact I.
  - exists t1, t2.
    split; [exact E1|]. split; [exact E2|].
    vm_compute in E1. injection E1 as <-.
    vm_compute in E2. injection E2 as <-.
    split_and!; reflexivity.
Defined.

(** C7. [get_addr_for_symbol] returns the address of the first entry, in
    insertion order, whose name matches, and -1 when none matches (and only
    then). A name inserted with an aligned address into a fresh table is
    looked up to that address, and of two entries under one name in a
    non-unique table the lookup shows the first. *)
Theorem lookup_first_match (t : SymbolTable) (n : string) :
  (forall l1 s l2,
     symbols t = (l1 ++ s :: l2)%list -> name s = n ->
     (forall s', In s' l1 -> name s' <> n) ->
     get_addr_for_symbol (Some t) n = addr s) /\
  ((forall s, In s (symbols t) -> name s <> n) ->
   get_addr_for_symbol (Some t) n = -1) /\
  (table_ok t -> get_addr_for_symbol (Some t) n = -1 ->
   forall s, In s (symbols t) -> name s <> n) /\
  (forall m a, a mod 4 = 0 -> 0 <= a < 2 ^ 32 ->
     exists t',
       add_to_table (Some (create_table m)) (Some n) a = (0, Some t') /\
       get_addr_for_symbol (Some t') n = a) /\
  (forall a1 a2, table_ok t -> mode t <> SYMTBL_UNIQUE_NAME ->
     a1 mod 4 = 0 -> 0 <= a1 < 2 ^ 32 -> a2 mod 4 = 0 -> 0 <= a2 < 2 ^ 32 ->
     (forall s, In s (symbols t) -> name s <> n) ->
     exists t1 t2,
       add_to_table (Some t) (Some n) a1 = (0, Some t1) /\
       add_to_table (Some t1) (Some n) a2 = (0, Some t2) /\
       symbols t2 = (symbols t ++ [mkSymbol n a1; mkSymbol n a2])%list /\
       get_addr_for_symbol (Some t2) n = a1).
Proof.
  split_and!.
  - intros l1 s l2 E Hs Hl1. rewrite get_addr_symbols, E.
    by apply first_addr_first.
  - intros H. rewrite get_addr_symbols. by apply first_addr_none.
  - intros Hok E s Hin Hs. rewrite get_addr_symbols in E.
    apply list_elem_of_In, list_elem_of_split in Hin.
    destruct Hin as (l1 & l2 & Hsplit).
    assert (exists k1 x k2, symbols t = (k1 ++ x :: k2)%list /\ name x = n /\
              forall s', In s' k1 -> name s' <> n) as (k1 & x & k2 & Hk & Hx & Hk1).
    { revert Hsplit. generalize (symbols t). intros l. revert l.
      induction l1 as [|y l1 IH]; intros l ->.
      - exists [], s, l2. simpl. split_and!; auto.
      - destruct (String.eqb_spec (name y) n) as [Ey|Ey].
        + exists [], y, (l1 ++ s :: l2)%list. simpl. split_and!; auto.
        + destruct (IH _ eq_refl) as (k1 & x & k2 & Hk & Hx & Hk1).
          exists (y :: k1), x, k2. simpl. rewrite Hk. split_and!; auto.
          intros s' [<-|H]; auto. }
    rewrite Hk, (first_addr_first k1 k2 x n Hx Hk1) in E.
    destruct (symbols_aligned t x Hok) as [_ Hr]; [|lia].
    rewrite Hk. apply in_or_app. right. by left.
  - intros m a Ha Hr.
    destruct (create_table_ok m) as (Hok0 & S0 & _).
    destruct (add_to_table_appends (create_table m) n a Hok0 Ha Hr)
      as (t' & E & _ & S' & _).
    { rewrite S0. simpl. tauto. }
    exists t'. split; [exact E|].
    rewrite get_addr_symbols, S', S0. simpl. by rewrite String.eqb_refl.
  - intros a1 a2 Hok Hm Ha1 Hr1 Ha2 Hr2 Hfresh.
    destruct (add_to_table_appends t n a1 Hok Ha1 Hr1)
      as (t1 & E1 & Hok1 & S1 & M1 & _); [tauto|].
    destruct (add_to_table_appends t1 n a2 Hok1 Ha2 Hr2)
      as (t2 & E2 & Hok2 & S2 & M2 & _); [rewrite M1; tauto|].
    exists t1, t2. rewrite S1, <- app_assoc in S2. simpl in S2.
    split_and!; auto.
    rewrite get_addr_symbols, S2.
    by apply (first_addr_first (symbols t) [mkSymbol n a2] (mkSymbol n a1) n).
Qed.

Lemma lookup_first_match_witness :
  exists t1 t2,
    add_to_table (Some (create_table 0)) (Some "loop") 4 = (0, Some t1) /\
    add_to_table (Some t1) (Some "loop") 12 = (0, Some t2) /\
    symbols t2 = [mkSymbol "loop" 4; mkSymbol "loop" 12] /\
    get_addr_for_symbol (Some t2) "loop" = 4.
Proof.
  destruct (lookup_first_match (create_table 0) "loop")
    as (_ & _ & _ & _ & H).
  destruct (H 4 12) as (t1 & t2 & E1 & E2 & S2 & L).
  - apply create_table_ok.
  - discriminate.
  - reflexivity.
  - lia.
  - reflexivity.
  - lia.
  - intros s [].
  - exists t1, t2. split_and!; [exact E1 | exact E2 | exact S2 | exact L].
Defined.

(** ** Branches *)

Lemma to_uint32_int32_sub (x y : Z) :
  to_uint32 (to_int32 x - y) = to_uint32 (x - y).
Proof.
  rewrite <- to_uint32_sub_l, to_uint32_of_int32. apply to_uint32_sub_l.
Qed.

Lemma can_branch_to_spec (src dest : Z) :
  can_branch_to src dest = true <->
  (0 <= to_int32 (dest - src) <= 131072 \/
   -131068 <= to_int32 (dest - src) < 0).
Proof.
  unfold can_branch_to, TWO_POW_SEVENTEEN. rewrite to_int32_of_uint32.
  generalize (to_int32 (dest - src)). intros d.
  rewrite orb_true_iff, !andb_true_iff.
  rewrite !Z.geb_le, !Z.leb_le, !Z.ltb_lt. lia.
Qed.

(** The word [write_branch] assembles, once its operands are resolved. *)
Lemma branch_word (opcode rs rt target address : Z) :
  0 <= opcode < 64 -> 0 <= rs < 32 -> 0 <= rt < 32 ->
  to_uint32
    (Z.land (to_int32 (to_uint32 (to_int32 target - address - 4) / 4)) 0xffff
     + shl_int rt 16 + shl_int rs 21 + shl_int opcode 26)
  = Z.lor (Z.lor (Z.lor (Z.land ((target - address - 4) / 4) 0xFFFF)
                        (Z.shiftl rt 16))
                 (Z.shiftl rs 21))
          (Z.shiftl opcode 26).
Proof.
  intros Ho Hs Ht.
  rewrite offset_low_bits.
  assert (Z.land ((to_int32 target - address - 4) / 4) 0xffff
          = Z.land ((target - address - 4) / 4) 0xffff) as ->.
  { rewrite <- (offset_low_bits (to_int32 target - address - 4)).
    rewrite <- (offset_low_bits (target - address - 4)).
    replace (to_int32 target - address - 4)
      with (to_int32 target - (address + 4)) by lia.
    replace (target - address - 4) with (target - (address + 4)) by lia.
    by rewrite to_uint32_int32_sub. }
  rewrite (shl_int_small rt 16), (shl_int_small rs 21) by lia.
  unfold shl_int. rewrite to_uint32_add_int32.
  assert (0 <= Z.land ((target - address - 4) / 4) 0xffff < 2 ^ 16) as Hi.
  { change 0xffff with (Z.ones 16). rewrite Z.land_ones by lia.
    apply Z.mod_pos_bound. lia. }
  destruct (fields_disjoint _ rt rs opcode Hi Ht Hs Ho) as [E R].
  rewrite to_uint32_small by exact R. exact E.
Qed.

(** C1, as amended. [write_branch] for beq/bne with valid registers: a
    label absent from the table fails and writes nothing; a label bound to
    [target] fails unless the 32-bit signed difference [diff] of target and
    address (which is their difference whenever that fits 32 bits) satisfies
    0 <= diff <= 131072 or -131068 <= diff < 0, and otherwise writes
    ((target - address - 4) / 4 & 0xFFFF) | rt<<16 | rs<<21 | opcode<<26.
    beq $t0 $t1 label at address 0 with label bound to 8 gives 11090001:
    offset 1 in the low 16 bits, opcode 4 in bits 31-26. *)
Theorem branch_encoding :
  (forall (opcode : Z) (rs_s rt_s label : string) (address : Z)
          (t : SymbolTable),
     opcode = 0x04 \/ opcode = 0x05 ->
     table_ok t -> 0 <= address < 2 ^ 32 ->
     translate_reg rs_s <> -1 -> translate_reg rt_s <> -1 ->
     let r := write_branch opcode [Some rs_s; Some rt_s; Some label]
                address (Some t) in
     ((forall s, In s (symbols t) -> name s <> label) ->
      r = (-1, EmptyString)) /\
     (forall l1 s l2,
        symbols t = (l1 ++ s :: l2)%list -> name s = label ->
        (forall s', In s' l1 -> name s' <> label) ->
        let diff := to_int32 (addr s - address) in
        (- 2 ^ 31 <= addr s - address < 2 ^ 31 -> diff = addr s - address) /\
        (~ (0 <= diff <= 131072 \/ -131068 <= diff < 0) ->
         r = (-1, EmptyString)) /\
        (0 <= diff <= 131072 \/ -131068 <= diff < 0 ->
         r = (0, write_inst_hex
                   (Z.lor (Z.lor (Z.lor
                      (Z.land ((addr s - address - 4) / 4) 0xFFFF)
                      (Z.shiftl (translate_reg rt_s) 16))
                      (Z.shiftl (translate_reg rs_s) 21))
                      (Z.shiftl opcode 26)))))) /\
  (let symtbl :=
     snd (add_to_table (Some (create_table SYMTBL_UNIQUE_NAME))
            (Some "label") 8) in
   translate_inst "beq" [Some "$t0"; Some "$t1"; Some "label"] 0 symtbl None
     = Some ((0, write_inst_hex 0x11090001), None) /\
   Z.land 0x11090001 0xFFFF = (8 - 0 - 4) / 4 /\
   Z.shiftr 0x11090001 26 = 0x04).
Proof.
  split; [|split_and!; reflexivity].
  intros opcode rs_s rt_s label address t Hop Hok Ha Hrs Hrt r.
  assert (0 <= opcode < 64) as Ho by (destruct Hop; subst; lia).
  pose proof (translate_reg_range _ Hrs) as Rs.
  pose proof (translate_reg_range _ Hrt) as Rt.
  destruct (lookup_first_match_parts t label) as (Hfound & Habsent).
  subst r. unfold write_branch. split.
  - intros Hno. rewrite (Habsent Hno). reflexivity.
  - intros l1 s l2 Hsplit Hs Hl1.
    rewrite (Hfound l1 s l2 Hsplit Hs Hl1).
    destruct (symbols_aligned t s Hok) as [Hal Hr].
    { rewrite Hsplit. apply in_or_app. right. by left. }
    assert ((to_int32 (addr s) =? -1) = false) as ->.
    { apply Z.eqb_neq. intros E. pose proof (to_int32_aligned (addr s)) as A.
      rewrite E, Hal in A. discriminate A. }
    rewrite to_uint32_of_int32, (to_uint32_small (addr s)) by exact Hr.
    assert ((translate_reg rt_s =? -1) = false) as -> by (by apply Z.eqb_neq).
    assert ((translate_reg rs_s =? -1) = false) as -> by (by apply Z.eqb_neq).
    rewrite !orb_false_r. simpl orb.
    pose proof (can_branch_to_spec address (addr s)) as Hc.
    split_and!.
    + intros Hsmall. by apply to_int32_small.
    + intros Hn. destruct (can_branch_to address (addr s)); [|reflexivity].
      exfalso. apply Hn, Hc. reflexivity.
    + intros Hy. apply Hc in Hy. rewrite Hy. simpl negb. cbv iota.
      f_equal. f_equal. by apply branch_word.
Qed.

Lemma branch_encoding_witness :
  exists t,
    add_to_table (Some (create_table SYMTBL_UNIQUE_NAME)) (Some "loop") 4
      = (0, Some t) /\
    write_branch 0x05 [Some "$s0"; Some "$zero"; Some "loop"] 16 (Some t)
      = (0, write_inst_hex 0x1600fffc).
Proof.
  destruct (create_table_ok SYMTBL_UNIQUE_NAME) as (Hok0 & S0 & _).
  destruct (add_to_table_appends (create_table SYMTBL_UNIQUE_NAME) "loop" 4)
    as (t & E & Hok & S' & _).
  - exact Hok0.
  - reflexivity.
  - lia.
  - rewrite S0. simpl. tauto.
  - exists t. split; [exact E|].
    rewrite S0 in S'. simpl in S'.
    destruct branch_encoding as [H _].
    destruct (H 0x05 "$s0" "$zero" "loop" 16 t) as (_ & Hfound).
    + right. reflexivity.
    + exact Hok.
    + lia.
    + discriminate.
    + discriminate.
    + destruct (Hfound [] (mkSymbol "loop" 4) []) as (_ & _ & Hyes).
      * exact S'.
      * reflexivity.
      * intros s' [].
      * rewrite Hyes; [reflexivity|]. right. vm_compute. split; [discriminate | reflexivity].
Defined.

(** C1 as stated fails: with the label bound to 4294967292 and the branch
    at address 0, the difference target - address is 4294967292, outside
    both ranges, yet [int32_t diff] is -4 and the word 1109fffe is written
    with result 0. *)
Lemma branch_difference_wraps :
  ~ (forall (opcode : Z) (rs_s rt_s label : string) (address : Z)
            (t : SymbolTable) (l1 l2 : list Symbol) (s : Symbol),
       opcode = 0x04 \/ opcode = 0x05 ->
       table_ok t -> 0 <= address < 2 ^ 32 ->
       translate_reg rs_s <> -1 -> translate_reg rt_s <> -1 ->
       symbols t = (l1 ++ s :: l2)%list -> name s = label ->
       (forall s', In s' l1 -> name s' <> label) ->
       ~ (0 <= addr s - address <= 131072 \/
          -131068 <= addr s - address < 0) ->
       write_branch opcode [Some rs_s; Some rt_s; Some label] address (Some t)
       = (-1, EmptyString)).
Proof.
  intros H.
  destruct (create_table_ok SYMTBL_UNIQUE_NAME) as (Hok0 & S0 & _).
  destruct (add_to_table_appends (create_table SYMTBL_UNIQUE_NAME) "label"
              4294967292 Hok0)
    as (t & E & Hok & S' & _).
  - reflexivity.
  - lia.
  - rewrite S0. simpl. tauto.
  - rewrite S0 in S'. simpl in S'.
    specialize (H 0x04 "$t0" "$t1" "label" 0 t [] [] (mkSymbol "label" 4294967292)).
    assert (write_branch 4 [Some "$t0"; Some "$t1"; Some "label"] 0 (Some t)
            = (0, write_inst_hex 0x1109fffe)) as W.
    { vm_compute in E. injection E as <-. reflexivity. }
    rewrite W in H. discriminate H.
    + left. reflexivity.
    + exact Hok.
    + lia.
    + discriminate.
    + discriminate.
    + exact S'.
    + reflexivity.
    + intros s' [].
    + simpl. lia.
Qed.

(** ** Immediates, pass one and the encoders' failures *)

(** translate_num *)
Lemma clamp_long_range (v : Z) : LONG_MIN <= clamp_long v <= LONG_MAX.
Proof.
  unfold clamp_long, LONG_MIN, LONG_MAX.
  destruct (Z.ltb_spec v (- 2 ^ 63)); [lia|].
  destruct (v >? 2 ^ 63 - 1) eqn:E; [lia|].
  rewrite Z.gtb_ltb in E. apply Z.ltb_ge in E. lia.
Qed.

Lemma strtol_range (s : string) : LONG_MIN <= fst (strtol s) <= LONG_MAX.
Proof.
  assert (LONG_MIN <= 0 <= LONG_MAX) as Z0 by (unfold LONG_MIN, LONG_MAX; lia).
  unfold strtol.
  destruct (match skip_spaces s with String c r => _ | EmptyString => _ end)
    as [neg s2].
  destruct (match s2 with String z r => _ | EmptyString => _ end)
    as [base s3].
  destruct s3 as [|c s3]; [exact Z0|].
  destruct (is_some (digit_in base c)); [|exact Z0].
  destruct (accumulate base 0 (String c s3)) as [v rest].
  apply clamp_long_range.
Qed.

Lemma translate_num_result (out : option Z) (str : option string) (lo hi : Z) :
  (translate_num out str lo hi = (-1, out)) \/
  (exists s v, str = Some s /\ v = fst (strtol s) /\ lo <= v <= hi /\
               translate_num out str lo hi = (0, Some v)).
Proof.
  unfold translate_num. destruct str as [s|]; [|by left].
  destruct (strtol s) as [v rest] eqn:E.
  destruct (Z.ltb_spec v lo); simpl; [by left|].
  destruct (v >? hi) eqn:G; [by left|].
  right. exists s, v. rewrite E. simpl. split_and!; auto.
  rewrite Z.gtb_ltb in G. apply Z.ltb_ge in G. exact G.
Qed.

Lemma li_always_reads_a_number (s : string) :
  translate_num None (Some s) LONG_MIN LONG_MAX = (0, Some (fst (strtol s))).
Proof.
  pose proof (strtol_range s) as R.
  unfold translate_num. destruct (strtol s) as [v rest]. simpl in *.
  destruct (Z.ltb_spec v LONG_MIN); [lia|].
  destruct (v >? LONG_MAX) eqn:G; [|reflexivity].
  rewrite Z.gtb_ltb in G. apply Z.ltb_lt in G. lia.
Qed.

(** What li expands to, for any two non-null arguments. *)
Lemma li_expansion (rd s : string) :
  write_pass_one "li" [Some rd; Some s] =
  Some (let imm := fst (strtol s) in
        if imm <? 65536
        then (1, "addiu " ++ rd ++ " $0 " ++ s ++ newline)
        else (2, "lui $at " ++ print_ld (Z.shiftr imm 16) ++ newline
                 ++ "ori " ++ rd ++ " $at "
                 ++ print_ld (Z.land imm 0xFFFF) ++ newline)).
Proof.
  unfold write_pass_one. simpl has_null. cbv iota.
  change (String.eqb "li" "li") with true. cbv iota.
  rewrite li_always_reads_a_number. simpl.
  destruct (fst (strtol s) <? 65536); reflexivity.
Qed.

(** C3. [write_pass_one] on li does not check that the immediate fits 32
    bits and never reports count 0 for two non-null arguments: 4294967296 is
    expanded into a lui/ori pair and a token that is no number into one
    addiu line. *)
Theorem li_not_validated :
  write_pass_one "li" [Some "$t0"; Some "4294967296"]
    = Some (2, "lui $at 65536" ++ newline ++ "ori $t0 $at 0" ++ newline) /\
  write_pass_one "li" [Some "$t0"; Some "abc"]
    = Some (1, "addiu $t0 $0 abc" ++ newline) /\
  (forall rd s, exists n text,
     write_pass_one "li" [Some rd; Some s] = Some (n, text) /\ n <> 0).
Proof.
  split_and!; try reflexivity.
  intros rd s. rewrite li_expansion. simpl.
  destruct (fst (strtol s) <? 65536); eexists _, _; (split; [reflexivity|lia]).
Qed.

(** C8. [translate_num] accepts malformed tokens: text that does not start
    with a number is read as 0, trailing garbage after a number is ignored,
    and the call returns 0 when that value is within the bounds. *)
Theorem translate_num_accepts_malformed :
  translate_num None (Some "abc") 0 31 = (0, Some 0) /\
  translate_num None (Some "12abc") 0 31 = (0, Some 12) /\
  translate_num None (Some EmptyString) 0 31 = (0, Some 0) /\
  translate_inst "sll" [Some "$t0"; Some "$t1"; Some "3rd"] 0 None None
    = Some ((0, write_inst_hex 0x000940c0), None).
Proof. split_and!; reflexivity. Qed.

(** write_jr and its siblings *)
Ltac silent_encoder :=
  intros;
  do 4 (try match goal with
  | l : list (option string) |- _ => destruct l as [|[?|] l]
  end);
  try (intros; reflexivity);
  repeat match goal with
  | |- context [translate_num ?o ?s ?l ?h] =>
      destruct (translate_num o s l h) as [? [?|]]
  | |- context [if ?b then _ else _] => destruct b
  end; unfold failure; cbn [fst snd]; intros;
  first [reflexivity | discriminate].

(** The other encoders write nothing whenever they return -1. *)
Lemma encoders_silent_on_failure (k : Z) (args : list (option string)) :
  (fst (write_rtype k args) = -1 -> snd (write_rtype k args) = EmptyString) /\
  (fst (write_shift k args) = -1 -> snd (write_shift k args) = EmptyString) /\
  (fst (write_addiu k args) = -1 -> snd (write_addiu k args) = EmptyString) /\
  (fst (write_ori k args) = -1 -> snd (write_ori k args) = EmptyString) /\
  (fst (write_lui k args) = -1 -> snd (write_lui k args) = EmptyString) /\
  (fst (write_mem k args) = -1 -> snd (write_mem k args) = EmptyString) /\
  (fst (write_mult_div k args) = -1 ->
   snd (write_mult_div k args) = EmptyString) /\
  (fst (write_mfhi_mflo k args) = -1 ->
   snd (write_mfhi_mflo k args) = EmptyString) /\
  (forall a t, fst (write_branch k args a t) = -1 ->
               snd (write_branch k args a t) = EmptyString).
Proof.
  unfold write_rtype, write_shift, write_addiu, write_ori, write_lui,
    write_mem, write_mult_div, write_mfhi_mflo, write_branch.
  split_and!; silent_encoder.
Qed.

(** C2. [write_jr] writes a word to the output before it looks at the
    register: with an invalid register it returns -1 and has written a
    line. *)
Theorem write_jr_writes_before_checking :
  write_jr 0x08 [Some "$foo"] = Some (-1, "ffe00008" ++ newline) /\
  translate_inst "jr" [Some "$foo"] 0 None None
    = Some ((-1, "ffe00008" ++ newline), None) /\
  (forall funct s, translate_reg s = -1 ->
     exists text, write_jr funct [Some s] = Some (-1, text) /\
                  text <> EmptyString).
Proof.
  split_and!; try reflexivity.
  intros funct s H. unfold write_jr. rewrite H. simpl.
  eexists. split; [reflexivity|]. unfold write_inst_hex. discriminate.
Qed.
Lemma write_jr_writes_before_checking_witness :
  exists text, write_jr 0x08 [Some "$t9"] = Some (-1, text) /\
               text <> EmptyString.
Proof.
  destruct write_jr_writes_before_checking as (_ & _ & H).
  apply (H 0x08 "$t9"). reflexivity.
Defined.

(** ** Registers and jumps *)

Lemma translate_reg_known (s : string) :
  translate_reg s <> -1 -> In s (map fst canonical_registers).
Proof.
  unfold translate_reg.
  repeat match goal with
  | |- context [String.eqb s ?l] =>
      destruct (String.eqb_spec s l) as [->|_]; [intros _; simpl; tauto|]
  end.
  intros H. contradiction.
Qed.

(** C9, as amended. [translate_reg] maps exactly 19 spellings to their
    register numbers and returns -1 for every other token. *)
Theorem translate_reg_canonical :
  (forall s n, In (s, n) canonical_registers -> translate_reg s = n) /\
  (forall s, ~ In s (map fst canonical_registers) -> translate_reg s = -1) /\
  NoDup (map fst canonical_registers) /\
  length canonical_registers = 19%nat.
Proof.
  split_and!.
  - intros s n H. simpl in H.
    repeat (destruct H as [H|H]; [injection H as <- <-; reflexivity|]).
    contradiction.
  - intros s H. destruct (Z.eq_dec (translate_reg s) (-1)) as [E|E]; [exact E|].
    exfalso. apply H. by apply translate_reg_known.
  - apply (bool_decide_unpack _). vm_compute. exact I.
  - reflexivity.
Qed.

Lemma translate_reg_canonical_witness :
  translate_reg "$sp" = 29 /\ translate_reg "$t4" = -1.
Proof.
  destruct translate_reg_canonical as (H1 & H2 & _).
  split.
  - apply H1. simpl. tauto.
  - apply H2. simpl. intros H.
    repeat (destruct H as [H|H]; [discriminate H|]). exact H.
Defined.

(** C9 as stated fails: no 22 distinct tokens are exactly the accepted
    ones. *)
Lemma translate_reg_not_22 :
  ~ exists l : list string,
      NoDup l /\ length l = 22%nat /\
      forall s, In s l <-> translate_reg s <> -1.
Proof.
  intros (l & Hnd & Hlen & Hl).
  assert (length l <= length (map fst canonical_registers))%nat as H.
  { apply NoDup_incl_length; [by apply NoDup_ListNoDup|].
    intros s Hs. apply translate_reg_known, Hl, Hs. }
  rewrite Hlen in H. simpl in H. lia.
Qed.

Lemma jump_word (opcode : Z) :
  0 <= opcode < 64 -> to_uint32 (shl_int opcode 26) = Z.shiftl opcode 26.
Proof.
  intros H. unfold shl_int. rewrite to_uint32_of_int32.
  apply to_uint32_small. rewrite Z.shiftl_mul_pow2 by lia. lia.
Qed.

(** C10. With one argument [write_jump] always writes opcode<<26 and
    returns 0, whatever [add_to_table] answers: for a misaligned address and
    for a NULL label the word is written, 0 is returned and the relocation
    table is unchanged. *)
Theorem jump_written_without_relocation :
  (forall opcode a0 address reltbl,
     0 <= opcode < 64 ->
     write_jump opcode [a0] address reltbl
     = ((0, write_inst_hex (Z.shiftl opcode 26)),
        snd (add_to_table reltbl a0 address))) /\
  (let reltbl := Some (create_table SYMTBL_NON_UNIQUE) in
   add_to_table reltbl (Some "label") 6 = (-1, reltbl) /\
   write_jump 0x02 [Some "label"] 6 reltbl
   = ((0, write_inst_hex 0x08000000), reltbl) /\
   add_to_table reltbl None 12 = (-1, reltbl) /\
   write_jump 0x02 [None] 12 reltbl
   = ((0, write_inst_hex 0x08000000), reltbl)).
Proof.
  split; [|split_and!; reflexivity].
  intros opcode a0 address reltbl Ho. unfold write_jump.
  destruct (add_to_table reltbl a0 address) as [r reltbl1]. simpl.
  by rewrite jump_word.
Qed.

Lemma jump_written_without_relocation_witness :
  write_jump 0x03 [Some "printf"] 7 None
  = ((0, write_inst_hex 0x0c000000), None).
Proof.
  destruct jump_written_without_relocation as [H _].
  rewrite (H 0x03 (Some "printf") 7 None); [reflexivity | lia].
Defined.

(** C4, as amended. For j/jal with one non-NULL label at a word-aligned
    address, and a relocation table that is not in unique mode or does not
    hold the label yet, [write_jump] appends (label, address) to the table
    and writes opcode<<26, whose low 26 bits are zero. j label at address 12
    writes 08000000 and appends ("label", 12). *)
Theorem jump_encoding :
  (forall opcode label address t,
     opcode = 0x02 \/ opcode = 0x03 ->
     table_ok t -> 0 <= address < 2 ^ 32 -> address mod 4 = 0 ->
     ~ (mode t = SYMTBL_UNIQUE_NAME /\ In label (map name (symbols t))) ->
     exists t',
       write_jump opcode [Some label] address (Some t)
       = ((0, write_inst_hex (Z.shiftl opcode 26)), Some t') /\
       symbols t' = (symbols t ++ [mkSymbol label address])%list /\
       Z.land (Z.shiftl opcode 26) (Z.ones 26) = 0) /\
  (exists t',
     translate_inst "j" [Some "label"] 12 None
       (Some (create_table SYMTBL_NON_UNIQUE))
     = Some ((0, write_inst_hex 0x08000000), Some t') /\
     symbols t' = [mkSymbol "label" 12]).
Proof.
  split.
  - intros opcode label address t Hop Hok Hr Ha Hn.
    destruct (add_to_table_appends t label address Hok Ha Hr)
      as (t' & E & _ & S' & _); [tauto|].
    exists t'. unfold write_jump. rewrite E. rewrite jump_word.
    + split_and!; auto. destruct Hop; subst; reflexivity.
    + destruct Hop; subst; lia.
  - eexists. split; reflexivity.
Qed.

Lemma jump_encoding_witness :
  exists t',
    write_jump 0x03 [Some "exit"] 40 (Some (create_table SYMTBL_NON_UNIQUE))
    = ((0, write_inst_hex 0x0c000000), Some t') /\
    symbols t' = [mkSymbol "exit" 40].
Proof.
  destruct jump_encoding as [H _].
  destruct (H 0x03 "exit" 40 (create_table SYMTBL_NON_UNIQUE))
    as (t' & E & S' & _).
  - right. reflexivity.
  - apply create_table_ok.
  - lia.
  - reflexivity.
  - intros [M _]. discriminate M.
  - exists t'. split; [exact E | exact S'].
Defined.

(** C4 as stated fails: at address 2 the word is written and nothing is
    appended. *)
Lemma jump_misaligned_not_appended :
  ~ (forall opcode label address t,
       opcode = 0x02 \/ opcode = 0x03 ->
       exists t',
         snd (write_jump opcode [Some label] address (Some t)) = Some t' /\
         symbols t' = (symbols t ++ [mkSymbol label address])%list).
Proof.
  intros H.
  destruct (H 0x02 "label" 2 (create_table SYMTBL_NON_UNIQUE))
    as (t' & E & S'); [by left|].
  vm_compute in E. injection E as <-. vm_compute in S'. discriminate S'.
Qed.

(** * Further properties of the code *)

(** ** Labels *)

Lemma label_loop_rest (s : string) :
  label_loop false s = 1 <->
  all_chars (fun c => isalnum c || is_underscore c) s = true.
Proof.
  induction s as [|c s IH]; simpl.
  - tauto.
  - destruct (isalnum c || is_underscore c) eqn:E.
    + apply orb_true_iff in E.
      assert (negb (isalnum c) && negb (is_underscore c) = false) as ->.
      { destruct (isalnum c), (is_underscore c); destruct E; auto; discriminate. }
      simpl. exact IH.
    + apply orb_false_iff in E. destruct E as [-> ->]. simpl.
      split; discriminate.
Qed.

Lemma label_loop_values (first : bool) (s : string) :
  label_loop first s = 0 \/ label_loop first s = 1.
Proof.
  revert first. induction s as [|c s IH]; intros first; simpl.
  - destruct first; auto.
  - destruct first.
    + destruct (negb (isalpha c) && negb (is_underscore c)); auto.
    + destruct (negb (isalnum c) && negb (is_underscore c)); auto.
Qed.

Lemma valid_label_shape (s : string) :
  is_valid_label (Some s) = 1 <->
  exists c rest,
    s = String c rest /\
    isalpha c || is_underscore c = true /\
    all_chars (fun c => isalnum c || is_underscore c) rest = true.
Proof.
  unfold is_valid_label. destruct s as [|c rest]; simpl.
  - split; [discriminate | intros (c & rest & H & _); discriminate].
  - destruct (isalpha c || is_underscore c) eqn:E.
    + assert (negb (isalpha c) && negb (is_underscore c) = false) as ->.
      { destruct (isalpha c), (is_underscore c); auto; discriminate. }
      rewrite label_loop_rest. split.
      * intros H. exists c, rest. rewrite E. auto.
      * intros (c' & rest' & H & _ & Hr). injection H as <- <-. exact Hr.
    + assert (negb (isalpha c) && negb (is_underscore c) = true) as ->.
      { apply orb_false_iff in E. destruct E as [-> ->]. reflexivity. }
      split; [discriminate|].
      intros (c' & rest' & H & Hc & _). injection H as <- <-. congruence.
Qed.

(** X1. [is_valid_label] answers 1 exactly for a non-empty string whose
    first character is a letter or an underscore and whose other characters
    are letters, digits or underscores; it answers 0 for everything else,
    the empty string and NULL included. *)
Theorem is_valid_label_spec :
  is_valid_label None = 0 /\
  is_valid_label (Some EmptyString) = 0 /\
  forall s : string,
    (is_valid_label (Some s) = 0 \/ is_valid_label (Some s) = 1) /\
    (is_valid_label (Some s) = 1 <->
     exists c rest,
       s = String c rest /\
       isalpha c || is_underscore c = true /\
       all_chars (fun c => isalnum c || is_underscore c) rest = true).
Proof.
  split_and!; try reflexivity.
  intros s. split; [apply label_loop_values | apply valid_label_shape].
Qed.

Lemma label_first_char (c : ascii) :
  isalpha c || is_underscore c = true ->
  (65 <= code c <= 90 \/ 97 <= code c <= 122 \/ code c = 95).
Proof.
  unfold isalpha, is_underscore.
  rewrite !orb_true_iff, !andb_true_iff, !Z.leb_le, Z.eqb_eq. tauto.
Qed.

Lemma code_inj_neq (c d : ascii) : code c <> code d -> Ascii.eqb c d = false.
Proof.
  intros H. apply Ascii.eqb_neq. intros ->. apply H. reflexivity.
Qed.

Lemma label_not_register (c : ascii) (rest : string) :
  isalpha c || is_underscore c = true -> translate_reg (String c rest) = -1.
Proof.
  intros H. apply label_first_char in H.
  assert (Ascii.eqb c "$" = false) as E.
  { apply code_inj_neq. change (code "$") with 36. lia. }
  unfold translate_reg. simpl. rewrite E. reflexivity.
Qed.

Lemma label_not_number (c : ascii) (rest : string) :
  isalpha c || is_underscore c = true ->
  strtol (String c rest) = (0, String c rest).
Proof.
  intros H. apply label_first_char in H.
  unfold strtol. simpl skip_spaces. unfold isspace.
  assert ((code c =? 32) || (9 <=? code c) && (code c <=? 13) = false) as ->.
  { apply orb_false_iff. split; [apply Z.eqb_neq; lia|].
    apply andb_false_iff. right. apply Z.leb_gt. lia. }
  assert ((code c =? 45) = false) as -> by (apply Z.eqb_neq; lia).
  assert ((code c =? 43) = false) as -> by (apply Z.eqb_neq; lia).
  assert ((code c =? 48) = false) as E48 by (apply Z.eqb_neq; lia).
  assert (digit_in 10 c = None) as D.
  { unfold digit_in, digit_value.
    destruct ((48 <=? code c) && (code c <=? 57)) eqn:E1.
    { apply andb_true_iff in E1. rewrite !Z.leb_le in E1. lia. }
    destruct ((97 <=? code c) && (code c <=? 122)) eqn:E2.
    { apply andb_true_iff in E2. rewrite !Z.leb_le in E2.
      destruct (Z.ltb_spec (code c - 87) 10); [lia | reflexivity]. }
    destruct ((65 <=? code c) && (code c <=? 90)) eqn:E3.
    { apply andb_true_iff in E3. rewrite !Z.leb_le in E3.
      destruct (Z.ltb_spec (code c - 55) 10); [lia | reflexivity]. }
    reflexivity. }
  destruct rest as [|x [|h r]]; rewrite E48; simpl; rewrite D; reflexivity.
Qed.

(** X2. A valid label is neither a register name nor a number: on it
    [translate_reg] answers -1 and [strtol] converts nothing (value 0, the
    whole token left unread). *)
Theorem valid_label_is_no_register_or_number (s : string) :
  is_valid_label (Some s) = 1 ->
  translate_reg s = -1 /\ strtol s = (0, s).
Proof.
  intros H. apply valid_label_shape in H.
  destruct H as (c & rest & -> & Hc & _). split.
  - by apply label_not_register.
  - by apply label_not_number.
Qed.

Lemma valid_label_is_no_register_or_number_witness :
  translate_reg "loop_1" = -1 /\ strtol "loop_1" = (0, "loop_1").
Proof.
  apply valid_label_is_no_register_or_number. reflexivity.
Defined.

(** ** Any sequence of insertions, and the table written out *)

Lemma add_to_table_step (t : SymbolTable) (n : string) (a : Z) :
  table_ok t -> 0 <= a < 2 ^ 32 ->
  (add_to_table (Some t) (Some n) a = (-1, Some t) /\
   (a mod 4 <> 0 \/
    (mode t = SYMTBL_UNIQUE_NAME /\ In n (map name (symbols t))))) \/
  (exists t',
     add_to_table (Some t) (Some n) a = (0, Some t') /\
     table_ok t' /\ symbols t' = (symbols t ++ [mkSymbol n a])%list /\
     mode t' = mode t /\ len t' = S (len t) /\
     cap t' = (if Nat.eqb (len t) (cap t) then cap t * 2 else cap t)%nat /\
     a mod 4 = 0 /\
     (mode t = SYMTBL_UNIQUE_NAME -> ~ In n (map name (symbols t)))).
Proof.
  intros Hok Hr.
  destruct (Z.eq_dec (a mod 4) 0) as [Ha|Ha].
  2:{ left. split; [|by left]. unfold add_to_table.
      destruct (Z.eqb_spec (a mod 4) 0); [contradiction | reflexivity]. }
  destruct (Z.eq_dec (mode t) SYMTBL_UNIQUE_NAME) as [Hm|Hm].
  - destruct (in_dec string_dec n (map name (symbols t))) as [Hin|Hin].
    + left. split; [|by right]. unfold add_to_table. rewrite Ha, Hm. simpl.
      apply name_exists_spec in Hin. fold (symbols t) in Hin.
      unfold symbols in Hin. by rewrite Hin.
    + right. destruct (add_to_table_appends t n a Hok Ha Hr)
        as (t' & E & Hok' & S' & M' & L' & C'); [auto|].
      exists t'. split_and!; auto.
  - right. destruct (add_to_table_appends t n a Hok Ha Hr)
      as (t' & E & Hok' & S' & M' & L' & C'); [tauto|].
    exists t'. split_and!; auto; tauto.
Qed.

Lemma add_all_any (es : list (string * Z)) : forall t : SymbolTable,
  table_ok t ->
  Forall (fun e => 0 <= e.2 < 2 ^ 32) es ->
  exists rets t',
    add_all (Some t) es = (rets, Some t') /\
    table_ok t' /\ mode t' = mode t /\
    symbols t'
      = (symbols t ++ map (fun e => mkSymbol e.1 e.2) (accepted es rets))%list /\
    length rets = length es /\
    Forall (fun r => r = 0 \/ r = -1) rets /\
    (cap t <= cap t')%nat /\
    (cap_shape t -> cap_shape t') /\
    (mode t = SYMTBL_UNIQUE_NAME ->
     NoDup (map name (symbols t)) -> NoDup (map name (symbols t'))).
Proof.
  induction es as [|[n a] es IH]; intros t Hok Hv.
  - exists [], t. simpl. rewrite app_nil_r. split_and!; auto.
  - apply Forall_cons in Hv. destruct Hv as [Hr Hv]. simpl in Hr.
    destruct (add_to_table_step t n a Hok Hr)
      as [[E _]|(t1 & E & Hok1 & S1 & M1 & L1 & C1 & Ha & Hu)].
    + destruct (IH t Hok Hv)
        as (rets & t' & E' & Hok' & M' & S' & Lr & Fr & C' & Sh' & U').
      exists (-1 :: rets), t'. cbn [add_all]. rewrite E, E'.
      split_and!.
      * reflexivity.
      * exact Hok'.
      * exact M'.
      * exact S'.
      * simpl. lia.
      * apply Forall_cons. auto.
      * exact C'.
      * exact Sh'.
      * exact U'.
    + destruct (IH t1 Hok1 Hv)
        as (rets & t' & E' & Hok' & M' & S' & Lr & Fr & C' & Sh' & U').
      exists (0 :: rets), t'. cbn [add_all]. rewrite E, E'.
      split_and!.
      * reflexivity.
      * exact Hok'.
      * congruence.
      * rewrite S', S1, <- app_assoc. reflexivity.
      * simpl. lia.
      * apply Forall_cons. auto.
      * destruct (Nat.eqb (len t) (cap t)); lia.
      * intros H. apply Sh'. apply (cap_shape_step t t1 Hok H L1 C1).
      * intros Hm Hnd. apply U'; [congruence|].
        rewrite S1, map_app. apply NoDup_app. split_and!.
        -- exact Hnd.
        -- intros x Hx Hx'. simpl in Hx'. apply list_elem_of_singleton in Hx'.
           subst x. apply (Hu Hm). by apply list_elem_of_In.
        -- simpl. apply NoDup_singleton.
Qed.

(** X3. Whatever is passed to [add_to_table] on a table from
    [create_table], valid or not, every call answers 0 or -1 and the table
    stays well formed: its entries are exactly the accepted insertions in
    call order, all at word-aligned addresses, at most [cap] of them, with
    [cap] five times a power of two; in unique mode no name occurs twice. *)
Theorem table_invariants (m : Z) (es : list (string * Z)) :
  Forall (fun e => 0 <= e.2 < 2 ^ 32) es ->
  exists rets t,
    add_all (Some (create_table m)) es = (rets, Some t) /\
    length rets = length es /\
    Forall (fun r => r = 0 \/ r = -1) rets /\
    symbols t = map (fun e => mkSymbol e.1 e.2) (accepted es rets) /\
    Forall (fun s => addr s mod 4 = 0) (symbols t) /\
    length (symbols t) = len t /\ (len t <= cap t)%nat /\
    length (tbl t) = cap t /\ cap_shape t /\ mode t = m /\
    (m = SYMTBL_UNIQUE_NAME -> NoDup (map name (symbols t))).
Proof.
  intros Hv.
  destruct (create_table_ok m) as (Hok0 & S0 & C0 & M0).
  destruct (add_all_any es (create_table m) Hok0 Hv)
    as (rets & t & E & Hok & M & S' & Lr & Fr & C' & Sh & U).
  exists rets, t. rewrite S0 in S'. simpl in S'.
  pose proof (table_ok_slots t Hok) as HT.
  pose proof Hok as (Hlen & Hle & _).
  split_and!.
  - exact E.
  - exact Lr.
  - exact Fr.
  - exact S'.
  - apply Forall_forall. intros s Hs. apply list_elem_of_In in Hs.
    apply (symbols_aligned t s Hok Hs).
  - apply (f_equal length) in HT. rewrite length_take, length_map in HT. lia.
  - exact Hle.
  - exact Hlen.
  - apply Sh. split; [exists 0%nat; reflexivity | left; reflexivity].
  - congruence.
  - intros Hm. apply U; [congruence|]. rewrite S0. simpl. apply NoDup_nil_2.
Qed.

Lemma table_invariants_witness :
  exists t,
    add_all (Some (create_table 1))
      [("main", 0); ("loop", 6); ("main", 8); ("end", 12)]
    = ([0; -1; -1; 0], Some t) /\
    symbols t = [mkSymbol "main" 0; mkSymbol "end" 12].
Proof.
  destruct (table_invariants 1
              [("main", 0); ("loop", 6); ("main", 8); ("end", 12)])
    as (rets & t & E & _ & _ & S' & _).
  - repeat (apply List.Forall_cons; [simpl; lia|]). apply List.Forall_nil.
  - exists t. vm_compute in E. injection E as <- <-. split; reflexivity.
Defined.

Lemma write_slots_symbols (slots : list (option Symbol)) :
  write_slots slots
  = table_lines (map (fun s => (name s, addr s)) (omap id slots)).
Proof.
  induction slots as [|[s|] rest IH]; simpl; auto. by rewrite IH.
Qed.

(** X4. [write_table] after any sequence of [add_to_table] calls on a fresh
    table prints one line, the decimal address, a tab, the name and a
    newline, for each accepted insertion, in call order, and nothing for
    the refused ones. *)
Theorem write_table_lists_accepted (m : Z) (es : list (string * Z)) :
  Forall (fun e => 0 <= e.2 < 2 ^ 32) es ->
  exists rets t,
    add_all (Some (create_table m)) es = (rets, Some t) /\
    write_table t = table_lines (accepted es rets).
Proof.
  intros Hv.
  destruct (create_table_ok m) as (Hok0 & S0 & _).
  destruct (add_all_any es (create_table m) Hok0 Hv)
    as (rets & t & E & _ & _ & S' & _).
  rewrite S0 in S'. simpl in S'.
  exists rets, t. split; [exact E|].
  unfold write_table. rewrite write_slots_symbols. fold (symbols t).
  rewrite S'. generalize (accepted es rets). intros l.
  induction l as [|[n a] l IH]; simpl; [reflexivity|].
  by rewrite IH.
Qed.

Lemma write_table_lists_accepted_witness :
  exists t,
    add_all (Some (create_table 0)) [("f", 4); ("g", 5); ("f", 16)]
    = ([0; -1; 0], Some t) /\
    write_table t = "4" ++ tab ++ "f" ++ newline ++ "16" ++ tab ++ "f" ++ newline.
Proof.
  destruct (write_table_lists_accepted 0 [("f", 4); ("g", 5); ("f", 16)])
    as (rets & t & E & W).
  - repeat (apply List.Forall_cons; [simpl; lia|]). apply List.Forall_nil.
  - exists t. vm_compute in E. injection E as <- <-. split; reflexivity.
Defined.

(** ** Field layout of the encoded words *)

Lemma field_spec (w lo width : Z) :
  0 <= lo -> 0 <= width -> field w lo width = (w / 2 ^ lo) mod 2 ^ width.
Proof.
  intros Hl Hw. unfold field.
  rewrite Z.land_ones by exact Hw. by rewrite Z.shiftr_div_pow2.
Qed.

Ltac field_arith :=
  rewrite ?field_spec by lia;
  rewrite ?Z.shiftl_mul_pow2 by lia;
  change (2 ^ 0) with 1; change (2 ^ 5) with 32; change (2 ^ 6) with 64;
  change (2 ^ 11) with 2048; change (2 ^ 16) with 65536;
  change (2 ^ 21) with 2097152; change (2 ^ 26) with 67108864;
  change (2 ^ 32) with 4294967296;
  Z.div_mod_to_equations; lia.

Lemma rword_fields (f sh rd rt rs : Z) :
  0 <= f < 64 -> 0 <= sh < 32 -> 0 <= rd < 32 -> 0 <= rt < 32 ->
  0 <= rs < 32 ->
  let w := f + Z.shiftl sh 6 + Z.shiftl rd 11 + Z.shiftl rt 16
           + Z.shiftl rs 21 in
  0 <= w < 2 ^ 32 /\ field w 0 6 = f /\ field w 6 5 = sh /\
  field w 11 5 = rd /\ field w 16 5 = rt /\ field w 21 5 = rs /\
  field w 26 6 = 0.
Proof.
  intros Hf Hsh Hrd Hrt Hrs w. subst w.
  split_and!; field_arith.
Qed.

Lemma iword_fields (imm rt rs op : Z) :
  0 <= imm < 2 ^ 16 -> 0 <= rt < 32 -> 0 <= rs < 32 -> 0 <= op < 64 ->
  let w := imm + Z.shiftl rt 16 + Z.shiftl rs 21 + Z.shiftl op 26 in
  0 <= w < 2 ^ 32 /\ field w 0 16 = imm /\ field w 16 5 = rt /\
  field w 21 5 = rs /\ field w 26 6 = op.
Proof.
  intros Hi Hrt Hrs Hop w. subst w.
  change (2 ^ 16) with 65536 in Hi.
  split_and!; field_arith.
Qed.

Lemma translate_num_bounds (s : string) (lo hi : Z) :
  translate_num None (Some s) lo hi
  = if (lo <=? fst (strtol s)) && (fst (strtol s) <=? hi)
    then (0, Some (fst (strtol s))) else (-1, None).
Proof.
  unfold translate_num. destruct (strtol s) as [v rest]. simpl.
  rewrite Z.gtb_ltb.
  destruct (Z.ltb_spec v lo), (Z.ltb_spec hi v), (Z.leb_spec lo v),
    (Z.leb_spec v hi); simpl; try reflexivity; lia.
Qed.

Lemma reg_ok (s : string) :
  translate_reg s <> -1 ->
  (translate_reg s =? -1) = false /\ 0 <= translate_reg s < 32.
Proof.
  intros H. split; [by apply Z.eqb_neq | by apply translate_reg_range].
Qed.

Lemma rword_value (f sh rd rt rs : Z) :
  0 <= f < 64 -> 0 <= sh < 32 -> 0 <= rd < 32 -> 0 <= rt < 32 ->
  0 <= rs < 32 ->
  to_uint32 (f + Z.shiftl sh 6 + shl_int rd 11 + shl_int rt 16
             + shl_int rs 21)
  = f + Z.shiftl sh 6 + Z.shiftl rd 11 + Z.shiftl rt 16 + Z.shiftl rs 21.
Proof.
  intros Hf Hsh Hrd Hrt Hrs.
  rewrite (shl_int_small rd 11), (shl_int_small rt 16), (shl_int_small rs 21)
    by lia.
  apply to_uint32_small. apply (rword_fields f sh rd rt rs); assumption.
Qed.

(** X5. [write_rtype] (addu, or, slt, sltu, xor) with three non-NULL
    arguments: if all three are register names it returns 0 and writes the
    word whose fields are funct (bits 0-5), rd (11-15), rt (16-20),
    rs (21-25) and zero elsewhere, rd, rs, rt being the first, second and
    third argument; if one is not, it returns -1 and writes nothing. *)
Theorem write_rtype_layout (funct : Z) (a0 a1 a2 : string) :
  0 <= funct < 64 ->
  (translate_reg a0 <> -1 -> translate_reg a1 <> -1 ->
   translate_reg a2 <> -1 ->
   exists w,
     write_rtype funct [Some a0; Some a1; Some a2] = (0, write_inst_hex w) /\
     0 <= w < 2 ^ 32 /\
     field w 0 6 = funct /\ field w 6 5 = 0 /\
     field w 11 5 = translate_reg a0 /\
     field w 16 5 = translate_reg a2 /\
     field w 21 5 = translate_reg a1 /\
     field w 26 6 = 0) /\
  (translate_reg a0 = -1 \/ translate_reg a1 = -1 \/ translate_reg a2 = -1 ->
   write_rtype funct [Some a0; Some a1; Some a2] = (-1, EmptyString)).
Proof.
  intros Hf. unfold write_rtype. split.
  - intros H0 H1 H2.
    destruct (reg_ok _ H0) as [E0 R0], (reg_ok _ H1) as [E1 R1],
      (reg_ok _ H2) as [E2 R2].
    rewrite E0, E1, E2. simpl orb. cbv iota.
    eexists. split; [reflexivity|].
    replace (funct + shl_int (translate_reg a0) 11)
      with (funct + Z.shiftl 0 6 + shl_int (translate_reg a0) 11)
      by (rewrite Z.shiftl_0_l; lia).
    rewrite rword_value by (assumption || lia).
    apply (rword_fields funct 0); assumption || lia.
  - intros H.
    destruct (Z.eqb_spec (translate_reg a0) (-1)); [reflexivity|].
    destruct (Z.eqb_spec (translate_reg a2) (-1)); [reflexivity|].
    destruct (Z.eqb_spec (translate_reg a1) (-1)); [reflexivity|].
    exfalso. tauto.
Qed.

Lemma write_rtype_layout_witness :
  exists w,
    write_rtype 0x21 [Some "$v0"; Some "$a0"; Some "$t1"]
      = (0, write_inst_hex w) /\
    field w 0 6 = 0x21 /\ field w 11 5 = 2 /\ field w 16 5 = 9 /\
    field w 21 5 = 4.
Proof.
  destruct (write_rtype_layout 0x21 "$v0" "$a0" "$t1") as [H _]; [lia|].
  destruct H as (w & E & _ & F0 & _ & F1 & F2 & F3 & _);
    [discriminate | discriminate | discriminate|].
  exists w. split_and!; assumption.
Defined.

(** X6. [write_shift] (sll) with three non-NULL arguments: when the first
    two are register names and the number read from the third is within
    0..31 it returns 0 and writes the word with funct in bits 0-5, the shift
    amount in bits 6-10, rd in 11-15, rt in 16-20 and zero elsewhere;
    otherwise it returns -1 and writes nothing. *)
Theorem write_shift_layout (funct : Z) (a0 a1 a2 : string) :
  0 <= funct < 64 ->
  let shamt := fst (strtol a2) in
  (translate_reg a0 <> -1 -> translate_reg a1 <> -1 -> 0 <= shamt <= 31 ->
   exists w,
     write_shift funct [Some a0; Some a1; Some a2] = (0, write_inst_hex w) /\
     0 <= w < 2 ^ 32 /\
     field w 0 6 = funct /\ field w 6 5 = shamt /\
     field w 11 5 = translate_reg a0 /\
     field w 16 5 = translate_reg a1 /\
     field w 21 5 = 0 /\ field w 26 6 = 0) /\
  (translate_reg a0 = -1 \/ translate_reg a1 = -1 \/
   ~ 0 <= shamt <= 31 ->
   write_shift funct [Some a0; Some a1; Some a2] = (-1, EmptyString)).
Proof.
  intros Hf shamt. unfold write_shift. rewrite translate_num_bounds.
  fold shamt. split.
  - intros H0 H1 Hs.
    destruct (reg_ok _ H0) as [E0 R0], (reg_ok _ H1) as [E1 R1].
    assert ((0 <=? shamt) && (shamt <=? 31) = true) as ->.
    { apply andb_true_iff. rewrite !Z.leb_le. lia. }
    rewrite E0, E1. simpl orb. cbv iota.
    eexists. split; [reflexivity|].
    replace (funct + Z.shiftl shamt 6 + shl_int (translate_reg a0) 11
             + shl_int (translate_reg a1) 16)
      with (funct + Z.shiftl shamt 6 + shl_int (translate_reg a0) 11
            + shl_int (translate_reg a1) 16 + shl_int 0 21)
      by (change (shl_int 0 21) with 0; lia).
    rewrite rword_value by (assumption || lia).
    destruct (rword_fields funct shamt (translate_reg a0) (translate_reg a1) 0)
      as (W & F0 & F1 & F2 & F3 & F4 & F5); try assumption; try lia.
  - intros H.
    destruct ((0 <=? shamt) && (shamt <=? 31)) eqn:B; [|reflexivity].
    apply andb_true_iff in B. rewrite !Z.leb_le in B. simpl.
    destruct (Z.eqb_spec (translate_reg a0) (-1)); [reflexivity|].
    destruct (Z.eqb_spec (translate_reg a1) (-1)); [reflexivity|].
    exfalso. destruct H as [H|[H|H]]; auto.
Qed.

Lemma write_shift_layout_witness :
  exists w,
    write_shift 0x00 [Some "$t0"; Some "$t1"; Some "0x1f"]
      = (0, write_inst_hex w) /\
    field w 6 5 = 31 /\ field w 11 5 = 8 /\ field w 16 5 = 9.
Proof.
  destruct (write_shift_layout 0x00 "$t0" "$t1" "0x1f") as [H _]; [lia|].
  destruct H as (w & E & _ & _ & F1 & F2 & F3 & _).
  - discriminate.
  - discriminate.
  - vm_compute. split; discriminate.
  - exists w. split_and!; assumption.
Defined.

Lemma low16 (v : Z) : Z.land v 0xFFFF = v mod 2 ^ 16.
Proof. change 0xFFFF with (Z.ones 16). apply Z.land_ones. lia. Qed.

Lemma itype_word_fields (op rs rt v : Z) :
  0 <= op < 64 -> 0 <= rs < 32 -> 0 <= rt < 32 ->
  let w := itype_word op rs rt v in
  0 <= w < 2 ^ 32 /\ field w 0 16 = v mod 2 ^ 16 /\ field w 16 5 = rt /\
  field w 21 5 = rs /\ field w 26 6 = op.
Proof.
  intros Hop Hrs Hrt w. subst w. unfold itype_word.
  rewrite (shl_int_small rt 16), (shl_int_small rs 21) by lia.
  unfold shl_int. rewrite to_uint32_add_int32, low16.
  assert (0 <= v mod 2 ^ 16 < 2 ^ 16) as Hv by (apply Z.mod_pos_bound; lia).
  pose proof (iword_fields (v mod 2 ^ 16) rt rs op Hv Hrt Hrs Hop) as H.
  cbv zeta in H. rewrite to_uint32_small by apply H. exact H.
Qed.

Lemma sign_extend16_mod (v : Z) :
  -32768 <= v <= 32767 -> sign_extend16 (v mod 2 ^ 16) = v.
Proof.
  intros H. unfold sign_extend16. change (2 ^ 16) with 65536.
  change (2 ^ 15) with 32768.
  destruct (Z.ltb_spec (v mod 65536) 32768); Z.div_mod_to_equations; lia.
Qed.

Lemma in_bounds (lo hi v : Z) :
  lo <= v <= hi -> (lo <=? v) && (v <=? hi) = true.
Proof. intros H. apply andb_true_iff. rewrite !Z.leb_le. lia. Qed.

Lemma out_of_bounds (lo hi v : Z) :
  ~ lo <= v <= hi -> (lo <=? v) && (v <=? hi) = false.
Proof.
  intros H. apply andb_false_iff.
  destruct (Z.leb_spec lo v); [|by left].
  right. apply Z.leb_gt. lia.
Qed.

(** X7. [write_addiu] with three non-NULL arguments rt, rs, imm: when rt
    and rs are register names and the number read from imm is within
    -32768..32767 it returns 0 and writes the word with the immediate in
    bits 0-15 (two's complement: sign-extending the field gives the number
    back), rt in 16-20, rs in 21-25 and the opcode in 26-31; otherwise it
    returns -1 and writes nothing. *)
Theorem write_addiu_layout (opcode : Z) (a0 a1 a2 : string) :
  0 <= opcode < 64 ->
  let imm := fst (strtol a2) in
  (translate_reg a0 <> -1 -> translate_reg a1 <> -1 ->
   -32768 <= imm <= 32767 ->
   exists w,
     write_addiu opcode [Some a0; Some a1; Some a2] = (0, write_inst_hex w) /\
     0 <= w < 2 ^ 32 /\
     sign_extend16 (field w 0 16) = imm /\
     field w 16 5 = translate_reg a0 /\
     field w 21 5 = translate_reg a1 /\
     field w 26 6 = opcode) /\
  (translate_reg a0 = -1 \/ translate_reg a1 = -1 \/
   ~ -32768 <= imm <= 32767 ->
   write_addiu opcode [Some a0; Some a1; Some a2] = (-1, EmptyString)).
Proof.
  intros Hop imm. unfold write_addiu. rewrite translate_num_bounds.
  fold imm. unfold INT16_MIN, INT16_MAX. split.
  - intros H0 H1 Hi.
    destruct (reg_ok _ H0) as [E0 R0], (reg_ok _ H1) as [E1 R1].
    rewrite (in_bounds _ _ _ Hi), E0, E1. simpl orb. cbv iota.
    eexists. split; [reflexivity|].
    destruct (itype_word_fields opcode (translate_reg a1) (translate_reg a0)
                imm Hop R1 R0) as (W & F0 & F1 & F2 & F3).
    rewrite F0, (sign_extend16_mod imm Hi). auto.
  - intros H.
    destruct (Z.le_decidable (-32768) imm) as [L|L];
      [destruct (Z.le_decidable imm 32767) as [U|U]|].
    + rewrite (in_bounds (-32768) 32767 imm) by lia. simpl.
      destruct (Z.eqb_spec (translate_reg a0) (-1)); [reflexivity|].
      destruct (Z.eqb_spec (translate_reg a1) (-1)); [reflexivity|].
      exfalso. destruct H as [H|[H|H]]; auto.
    + rewrite (out_of_bounds (-32768) 32767 imm) by lia. reflexivity.
    + rewrite (out_of_bounds (-32768) 32767 imm) by lia. reflexivity.
Qed.

Lemma write_addiu_layout_witness :
  exists w,
    write_addiu 0x09 [Some "$sp"; Some "$sp"; Some "-4"]
      = (0, write_inst_hex w) /\
    sign_extend16 (field w 0 16) = -4 /\ field w 16 5 = 29 /\
    field w 21 5 = 29 /\ field w 26 6 = 9.
Proof.
  destruct (write_addiu_layout 0x09 "$sp" "$sp" "-4") as [H _]; [lia|].
  destruct H as (w & E & _ & F0 & F1 & F2 & F3).
  - discriminate.
  - discriminate.
  - vm_compute. split; discriminate.
  - exists w. split_and!; assumption.
Defined.

(** X8. [write_mem] (lb, lbu, lw, sb, sw) with three non-NULL arguments rt,
    offset, rs: when rt and rs are register names and the number read from
    the offset is within -32768..32767 it returns 0 and writes the word with
    the offset in bits 0-15 (two's complement), rt in 16-20, rs in 21-25 and
    the opcode in 26-31, also for the opcodes from 0x20 on, whose shift by
    26 does not fit an [int]; otherwise it returns -1 and writes nothing. *)
Theorem write_mem_layout (opcode : Z) (a0 a1 a2 : string) :
  0 <= opcode < 64 ->
  let imm := fst (strtol a1) in
  (translate_reg a0 <> -1 -> translate_reg a2 <> -1 ->
   -32768 <= imm <= 32767 ->
   exists w,
     write_mem opcode [Some a0; Some a1; Some a2] = (0, write_inst_hex w) /\
     0 <= w < 2 ^ 32 /\
     sign_extend16 (field w 0 16) = imm /\
     field w 16 5 = translate_reg a0 /\
     field w 21 5 = translate_reg a2 /\
     field w 26 6 = opcode) /\
  (translate_reg a0 = -1 \/ translate_reg a2 = -1 \/
   ~ -32768 <= imm <= 32767 ->
   write_mem opcode [Some a0; Some a1; Some a2] = (-1, EmptyString)).
Proof.
  intros Hop imm. unfold write_mem. rewrite translate_num_bounds.
  fold imm. unfold INT16_MIN, INT16_MAX. split.
  - intros H0 H2 Hi.
    destruct (reg_ok _ H0) as [E0 R0], (reg_ok _ H2) as [E2 R2].
    rewrite (in_bounds _ _ _ Hi), E0, E2. simpl orb. cbv iota.
    eexists. split; [reflexivity|].
    destruct (itype_word_fields opcode (translate_reg a2) (translate_reg a0)
                imm Hop R2 R0) as (W & F0 & F1 & F2 & F3).
    rewrite F0, (sign_extend16_mod imm Hi). auto.
  - intros H.
    destruct (Z.le_decidable (-32768) imm) as [L|L];
      [destruct (Z.le_decidable imm 32767) as [U|U]|].
    + rewrite (in_bounds (-32768) 32767 imm) by lia. simpl.
      destruct (Z.eqb_spec (translate_reg a0) (-1)); [reflexivity|].
      destruct (Z.eqb_spec (translate_reg a2) (-1)); [reflexivity|].
      exfalso. destruct H as [H|[H|H]]; auto.
    + rewrite (out_of_bounds (-32768) 32767 imm) by lia. reflexivity.
    + rewrite (out_of_bounds (-32768) 32767 imm) by lia. reflexivity.
Qed.

Lemma write_mem_layout_witness :
  exists w,
    write_mem 0x2b [Some "$t0"; Some "-4"; Some "$sp"]
      = (0, write_inst_hex w) /\
    sign_extend16 (field w 0 16) = -4 /\ field w 16 5 = 8 /\
    field w 21 5 = 29 /\ field w 26 6 = 0x2b.
Proof.
  destruct (write_mem_layout 0x2b "$t0" "-4" "$sp") as [H _]; [lia|].
  destruct H as (w & E & _ & F0 & F1 & F2 & F3).
  - discriminate.
  - discriminate.
  - vm_compute. split; discriminate.
  - exists w. split_and!; assumption.
Defined.

Lemma write_addiu_eq (opcode : Z) (a0 a1 a2 : string) :
  write_addiu opcode [Some a0; Some a1; Some a2]
  = if (-32768 <=? fst (strtol a2)) && (fst (strtol a2) <=? 32767)
       && negb (translate_reg a0 =? -1) && negb (translate_reg a1 =? -1)
    then (0, write_inst_hex
               (itype_word opcode (translate_reg a1) (translate_reg a0)
                  (fst (strtol a2))))
    else (-1, EmptyString).
Proof.
  unfold write_addiu. rewrite translate_num_bounds.
  unfold INT16_MIN, INT16_MAX.
  destruct ((-32768 <=? fst (strtol a2)) && (fst (strtol a2) <=? 32767));
    [|reflexivity].
  simpl. destruct (translate_reg a0 =? -1), (translate_reg a1 =? -1);
    reflexivity.
Qed.

(** X9. [write_ori] with three non-NULL arguments rt, rs, imm: when rt and
    rs are register names and the number read from imm is within 0..65535
    it returns 0 and writes the word with that number in bits 0-15, rt in
    16-20, rs in 21-25 and the opcode in 26-31; otherwise it returns -1 and
    writes nothing. *)
Theorem write_ori_layout (opcode : Z) (a0 a1 a2 : string) :
  0 <= opcode < 64 ->
  let imm := fst (strtol a2) in
  (translate_reg a0 <> -1 -> translate_reg a1 <> -1 -> 0 <= imm <= 65535 ->
   exists w,
     write_ori opcode [Some a0; Some a1; Some a2] = (0, write_inst_hex w) /\
     0 <= w < 2 ^ 32 /\
     field w 0 16 = imm /\
     field w 16 5 = translate_reg a0 /\
     field w 21 5 = translate_reg a1 /\
     field w 26 6 = opcode) /\
  (translate_reg a0 = -1 \/ translate_reg a1 = -1 \/ ~ 0 <= imm <= 65535 ->
   write_ori opcode [Some a0; Some a1; Some a2] = (-1, EmptyString)).
Proof.
  intros Hop imm. unfold write_ori. rewrite translate_num_bounds.
  fold imm. unfold UINT16_MAX. split.
  - intros H0 H1 Hi.
    destruct (reg_ok _ H0) as [E0 R0], (reg_ok _ H1) as [E1 R1].
    rewrite (in_bounds _ _ _ Hi), E0, E1. simpl orb. cbv iota.
    eexists. split; [reflexivity|].
    destruct (itype_word_fields opcode (translate_reg a1) (translate_reg a0)
                imm Hop R1 R0) as (W & F0 & F1 & F2 & F3).
    rewrite F0, Z.mod_small by (change (2 ^ 16) with 65536; lia). auto.
  - intros H.
    destruct (Z.le_decidable 0 imm) as [L|L];
      [destruct (Z.le_decidable imm 65535) as [U|U]|].
    + rewrite (in_bounds 0 65535 imm) by lia. simpl.
      destruct (Z.eqb_spec (translate_reg a0) (-1)); [reflexivity|].
      destruct (Z.eqb_spec (translate_reg a1) (-1)); [reflexivity|].
      exfalso. destruct H as [H|[H|H]]; auto.
    + rewrite (out_of_bounds 0 65535 imm) by lia. reflexivity.
    + rewrite (out_of_bounds 0 65535 imm) by lia. reflexivity.
Qed.

Lemma write_ori_layout_witness :
  exists w,
    write_ori 0x0d [Some "$t0"; Some "$at"; Some "34464"]
      = (0, write_inst_hex w) /\
    field w 0 16 = 34464 /\ field w 16 5 = 8 /\ field w 21 5 = 1 /\
    field w 26 6 = 0x0d.
Proof.
  destruct (write_ori_layout 0x0d "$t0" "$at" "34464") as [H _]; [lia|].
  destruct H as (w & E & _ & F0 & F1 & F2 & F3).
  - discriminate.
  - discriminate.
  - vm_compute. split; discriminate.
  - exists w. split_and!; assumption.
Defined.

(** X10. [write_lui] with two non-NULL arguments rt, imm: when rt is a
    register name and the number read from imm is within 0..65535 it
    returns 0 and writes the word with that number in bits 0-15, rt in
    16-20, zero in 21-25 and the opcode in 26-31; otherwise it returns -1
    and writes nothing. *)
Theorem write_lui_layout (opcode : Z) (a0 a1 : string) :
  0 <= opcode < 64 ->
  let imm := fst (strtol a1) in
  (translate_reg a0 <> -1 -> 0 <= imm <= 65535 ->
   exists w,
     write_lui opcode [Some a0; Some a1] = (0, write_inst_hex w) /\
     0 <= w < 2 ^ 32 /\
     field w 0 16 = imm /\
     field w 16 5 = translate_reg a0 /\
     field w 21 5 = 0 /\
     field w 26 6 = opcode) /\
  (translate_reg a0 = -1 \/ ~ 0 <= imm <= 65535 ->
   write_lui opcode [Some a0; Some a1] = (-1, EmptyString)).
Proof.
  intros Hop imm. unfold write_lui. rewrite translate_num_bounds.
  fold imm. unfold UINT16_MAX. split.
  - intros H0 Hi.
    destruct (reg_ok _ H0) as [E0 R0].
    rewrite (in_bounds _ _ _ Hi), E0. simpl orb. cbv iota.
    eexists. split; [reflexivity|].
    replace (Z.land imm 0xFFFF + shl_int (translate_reg a0) 16
             + shl_int opcode 26)
      with (Z.land imm 0xFFFF + shl_int (translate_reg a0) 16
            + shl_int 0 21 + shl_int opcode 26)
      by (change (shl_int 0 21) with 0; lia).
    fold (itype_word opcode 0 (translate_reg a0) imm).
    destruct (itype_word_fields opcode 0 (translate_reg a0) imm Hop)
      as (W & F0 & F1 & F2 & F3); [lia | exact R0 |].
    rewrite F0, Z.mod_small by (change (2 ^ 16) with 65536; lia). auto.
  - intros H.
    destruct (Z.le_decidable 0 imm) as [L|L];
      [destruct (Z.le_decidable imm 65535) as [U|U]|].
    + rewrite (in_bounds 0 65535 imm) by lia. simpl.
      destruct (Z.eqb_spec (translate_reg a0) (-1)); [reflexivity|].
      exfalso. destruct H as [H|H]; auto.
    + rewrite (out_of_bounds 0 65535 imm) by lia. reflexivity.
    + rewrite (out_of_bounds 0 65535 imm) by lia. reflexivity.
Qed.

Lemma write_lui_layout_witness :
  exists w,
    write_lui 0x0f [Some "$at"; Some "0xffff"] = (0, write_inst_hex w) /\
    field w 0 16 = 65535 /\ field w 16 5 = 1 /\ field w 26 6 = 0x0f.
Proof.
  destruct (write_lui_layout 0x0f "$at" "0xffff") as [H _]; [lia|].
  destruct H as (w & E & _ & F0 & F1 & _ & F3).
  - discriminate.
  - vm_compute. split; discriminate.
  - exists w. split_and!; assumption.
Defined.

(** X11. [write_mult_div] (mult, div) with two non-NULL arguments rs, rt
    and [write_mfhi_mflo] (mfhi, mflo) with one non-NULL argument rd: with
    register names they return 0 and write the word with funct in bits 0-5
    and the registers in their fields (rt 16-20 and rs 21-25, or rd 11-15),
    zero elsewhere; with a token that is no register they return -1 and
    write nothing. *)
Theorem hi_lo_layout (funct : Z) (a0 a1 : string) :
  0 <= funct < 64 ->
  (translate_reg a0 <> -1 -> translate_reg a1 <> -1 ->
   exists w,
     write_mult_div funct [Some a0; Some a1] = (0, write_inst_hex w) /\
     0 <= w < 2 ^ 32 /\
     field w 0 6 = funct /\ field w 6 5 = 0 /\ field w 11 5 = 0 /\
     field w 16 5 = translate_reg a1 /\ field w 21 5 = translate_reg a0 /\
     field w 26 6 = 0) /\
  (translate_reg a0 = -1 \/ translate_reg a1 = -1 ->
   write_mult_div funct [Some a0; Some a1] = (-1, EmptyString)) /\
  (translate_reg a0 <> -1 ->
   exists w,
     write_mfhi_mflo funct [Some a0] = (0, write_inst_hex w) /\
     0 <= w < 2 ^ 32 /\
     field w 0 6 = funct /\ field w 6 5 = 0 /\
     field w 11 5 = translate_reg a0 /\
     field w 16 5 = 0 /\ field w 21 5 = 0 /\ field w 26 6 = 0) /\
  (translate_reg a0 = -1 ->
   write_mfhi_mflo funct [Some a0] = (-1, EmptyString)).
Proof.
  intros Hf. unfold write_mult_div, write_mfhi_mflo. split_and!.
  - intros H0 H1.
    destruct (reg_ok _ H0) as [E0 R0], (reg_ok _ H1) as [E1 R1].
    rewrite E0, E1. simpl orb. cbv iota.
    eexists. split; [reflexivity|].
    replace (funct + shl_int (translate_reg a1) 16)
      with (funct + Z.shiftl 0 6 + shl_int 0 11 + shl_int (translate_reg a1) 16)
      by (change (shl_int 0 11) with 0; rewrite Z.shiftl_0_l; lia).
    rewrite rword_value by (assumption || lia).
    apply (rword_fields funct 0 0); assumption || lia.
  - intros H.
    destruct (Z.eqb_spec (translate_reg a0) (-1)); [reflexivity|].
    destruct (Z.eqb_spec (translate_reg a1) (-1)); [reflexivity|].
    exfalso. tauto.
  - intros H0. destruct (reg_ok _ H0) as [E0 R0]. rewrite E0.
    eexists. split; [reflexivity|].
    replace (funct + shl_int (translate_reg a0) 11)
      with (funct + Z.shiftl 0 6 + shl_int (translate_reg a0) 11
            + shl_int 0 16 + shl_int 0 21)
      by (change (shl_int 0 16) with 0; change (shl_int 0 21) with 0;
          rewrite Z.shiftl_0_l; lia).
    rewrite rword_value by (assumption || lia).
    apply (rword_fields funct 0 (translate_reg a0) 0 0); assumption || lia.
  - intros H. rewrite H. reflexivity.
Qed.

Lemma hi_lo_layout_witness :
  exists w1 w2,
    write_mult_div 0x1a [Some "$a0"; Some "$a1"] = (0, write_inst_hex w1) /\
    field w1 16 5 = 5 /\ field w1 21 5 = 4 /\
    write_mfhi_mflo 0x10 [Some "$v0"] = (0, write_inst_hex w2) /\
    field w2 11 5 = 2.
Proof.
  destruct (hi_lo_layout 0x1a "$a0" "$a1") as (H1 & _); [lia|].
  destruct (hi_lo_layout 0x10 "$v0" "$v0") as (_ & _ & H2 & _); [lia|].
  destruct H1 as (w1 & E1 & _ & _ & _ & _ & F1 & F2 & _);
    [discriminate | discriminate |].
  destruct H2 as (w2 & E2 & _ & _ & _ & F3 & _); [discriminate|].
  exists w1, w2. split_and!; assumption.
Defined.

Lemma write_ori_eq (opcode : Z) (a0 a1 a2 : string) :
  write_ori opcode [Some a0; Some a1; Some a2]
  = if (0 <=? fst (strtol a2)) && (fst (strtol a2) <=? 65535)
       && negb (translate_reg a0 =? -1) && negb (translate_reg a1 =? -1)
    then (0, write_inst_hex
               (itype_word opcode (translate_reg a1) (translate_reg a0)
                  (fst (strtol a2))))
    else (-1, EmptyString).
Proof.
  unfold write_ori. rewrite translate_num_bounds. unfold UINT16_MAX.
  destruct ((0 <=? fst (strtol a2)) && (fst (strtol a2) <=? 65535));
    [|reflexivity].
  simpl. destruct (translate_reg a0 =? -1), (translate_reg a1 =? -1);
    reflexivity.
Qed.

Lemma write_lui_eq (opcode : Z) (a0 a1 : string) :
  write_lui opcode [Some a0; Some a1]
  = if (0 <=? fst (strtol a1)) && (fst (strtol a1) <=? 65535)
       && negb (translate_reg a0 =? -1)
    then (0, write_inst_hex
               (itype_word opcode 0 (translate_reg a0) (fst (strtol a1))))
    else (-1, EmptyString).
Proof.
  unfold write_lui, itype_word. rewrite translate_num_bounds.
  unfold UINT16_MAX.
  destruct ((0 <=? fst (strtol a1)) && (fst (strtol a1) <=? 65535));
    [|reflexivity].
  simpl. destruct (translate_reg a0 =? -1); [reflexivity|]. simpl.
  change (shl_int 0 21) with 0. rewrite Z.add_0_r. reflexivity.
Qed.

(** ** Branch targets *)

Lemma branch_offset_round_trip (target address : Z) :
  0 <= target < 2 ^ 32 -> 0 <= address < 2 ^ 32 ->
  target mod 4 = 0 -> address mod 4 = 0 ->
  (0 <= to_int32 (target - address) <= 131072 \/
   -131068 <= to_int32 (target - address) < 0) ->
  let off := sign_extend16 (((target - address - 4) / 4) mod 2 ^ 16) in
  -32768 <= off <= 32767 /\
  4 * off + 4 = to_int32 (target - address) /\
  to_uint32 (address + 4 + 4 * off) = target.
Proof.
  intros Ht Ha Mt Ma Hd off. subst off.
  unfold to_int32, to_uint32, sign_extend16 in *.
  change (2 ^ 32) with 4294967296 in *. change (2 ^ 31) with 2147483648 in *.
  change (2 ^ 16) with 65536. change (2 ^ 15) with 32768.
  destruct (Z.ltb_spec (((target - address - 4) / 4) mod 65536) 32768);
    Z.div_mod_to_equations; lia.
Qed.

Lemma get_addr_found (t : SymbolTable) (n : string) :
  table_ok t -> get_addr_for_symbol (Some t) n <> -1 ->
  get_addr_for_symbol (Some t) n mod 4 = 0 /\
  0 <= get_addr_for_symbol (Some t) n < 2 ^ 32.
Proof.
  intros Hok H. rewrite get_addr_symbols in *.
  destruct (first_addr_in (symbols t) n) as [E|(s & Hin & _ & E)];
    [contradiction|].
  rewrite E. by apply (symbols_aligned t s Hok).
Qed.

(** X12. When [write_branch] succeeds for beq/bne at a word-aligned address,
    the word it writes carries the opcode and the two registers in their
    fields, and a 16-bit offset that leads back to the label: the address
    of the instruction plus 4 plus 4 times the sign-extended offset is the
    address the label is bound to. Every distance the reachability test
    lets through fits the 16-bit field. *)
Theorem branch_target_recovered (opcode : Z) (a0 a1 label : string)
    (address : Z) (t : SymbolTable) (text : string) :
  opcode = 0x04 \/ opcode = 0x05 ->
  table_ok t -> 0 <= address < 2 ^ 32 -> address mod 4 = 0 ->
  write_branch opcode [Some a0; Some a1; Some label] address (Some t)
    = (0, text) ->
  exists w,
    text = write_inst_hex w /\ 0 <= w < 2 ^ 32 /\
    field w 26 6 = opcode /\
    field w 21 5 = translate_reg a0 /\
    field w 16 5 = translate_reg a1 /\
    -32768 <= sign_extend16 (field w 0 16) <= 32767 /\
    to_uint32 (address + 4 + 4 * sign_extend16 (field w 0 16))
      = get_addr_for_symbol (Some t) label.
Proof.
  intros Hop Hok Ha Hal. unfold write_branch.
  set (target := get_addr_for_symbol (Some t) label).
  destruct (Z.eqb_spec (to_int32 target) (-1)) as [E|E]; [discriminate|].
  destruct (can_branch_to address (to_uint32 (to_int32 target))) eqn:C;
    [|discriminate].
  destruct (Z.eqb_spec (translate_reg a1) (-1)) as [E1|E1]; [discriminate|].
  destruct (Z.eqb_spec (translate_reg a0) (-1)) as [E0|E0]; [discriminate|].
  simpl. intros H. injection H as <-.
  assert (target <> -1) as Ht by (intros Hm; apply E; by rewrite Hm).
  destruct (get_addr_found t label Hok Ht) as [Mt Rt]. fold target in Mt, Rt.
  rewrite to_uint32_of_int32, to_uint32_small in C by exact Rt.
  apply can_branch_to_spec in C.
  pose proof (translate_reg_range _ E0) as R0.
  pose proof (translate_reg_range _ E1) as R1.
  assert (0 <= opcode < 64) as Ho by (destruct Hop; subst; lia).
  eexists. split; [reflexivity|].
  rewrite (branch_word opcode (translate_reg a0) (translate_reg a1))
    by assumption.
  rewrite low16.
  assert (0 <= ((target - address - 4) / 4) mod 2 ^ 16 < 2 ^ 16) as Hi
    by (apply Z.mod_pos_bound; lia).
  destruct (fields_disjoint _ (translate_reg a1) (translate_reg a0) opcode
              Hi R1 R0 Ho) as [<- _].
  destruct (iword_fields _ (translate_reg a1) (translate_reg a0) opcode
              Hi R1 R0 Ho) as (W & F0 & F1 & F2 & F3).
  rewrite F0.
  pose proof (branch_offset_round_trip target address Rt Ha Mt Hal C) as B.
  cbv zeta in B. destruct B as (B1 & _ & B3).
  split_and!; first [assumption | apply W | apply B1].
Qed.

Lemma branch_target_recovered_witness :
  exists t w,
    add_all (Some (create_table SYMTBL_UNIQUE_NAME)) [("top", 0)]
      = ([0], Some t) /\
    write_branch 0x04 [Some "$t0"; Some "$0"; Some "top"] 131068 (Some t)
      = (0, write_inst_hex w) /\
    0 <= w < 2 ^ 32 /\
    to_uint32 (131068 + 4 + 4 * sign_extend16 (field w 0 16)) = 0.
Proof.
  destruct (create_table_ok SYMTBL_UNIQUE_NAME) as (Hok0 & _).
  destruct (add_all_valid [("top", 0)] (create_table SYMTBL_UNIQUE_NAME) Hok0)
    as (t & E1 & Hok & _).
  - apply List.Forall_cons; [simpl; split; [reflexivity | lia]|].
    apply List.Forall_nil.
  - intros _. simpl. apply NoDup_singleton.
  - exists t.
    destruct (branch_target_recovered 0x04 "$t0" "$0" "top" 131068 t
                (write_inst_hex 0x11008000))
      as (w & Ew & Rw & _ & _ & _ & _ & Tw).
    + left. reflexivity.
    + exact Hok.
    + lia.
    + reflexivity.
    + vm_compute in E1. injection E1 as <-. reflexivity.
    + exists w. split; [exact E1|]. split; [|split; [exact Rw|]].
      * rewrite <- Ew. vm_compute in E1. injection E1 as <-. reflexivity.
      * rewrite Tw. vm_compute in E1. injection E1 as <-. reflexivity.
Defined.

(** X20. For word-aligned addresses [can_branch_to] holds exactly when the
    word offset of the branch, (dest - src - 4) / 4 on the 32-bit signed
    difference, fits the signed 16-bit field: the bounds 131072 and -131068
    are the largest and smallest distances that can be encoded. *)
Theorem can_branch_to_exact (src dest : Z) :
  0 <= src < 2 ^ 32 -> 0 <= dest < 2 ^ 32 ->
  src mod 4 = 0 -> dest mod 4 = 0 ->
  (can_branch_to src dest = true <->
   -32768 <= (to_int32 (dest - src) - 4) / 4 <= 32767).
Proof.
  intros Hs Hd Ms Md. rewrite can_branch_to_spec.
  assert (to_int32 (dest - src) mod 4 = 0) as M.
  { rewrite to_int32_aligned. rewrite Zminus_mod, Ms, Md. reflexivity. }
  generalize dependent (to_int32 (dest - src)). intros d M.
  split; intros H; Z.div_mod_to_equations; lia.
Qed.

Lemma can_branch_to_exact_witness :
  can_branch_to 0 131072 = true /\ can_branch_to 0 131076 = false /\
  can_branch_to 131068 0 = true /\ can_branch_to 131072 0 = false.
Proof.
  assert (forall s d, 0 <= s < 2 ^ 32 -> 0 <= d < 2 ^ 32 ->
            s mod 4 = 0 -> d mod 4 = 0 ->
            can_branch_to s d
            = ((-32768 <=? (to_int32 (d - s) - 4) / 4)
               && ((to_int32 (d - s) - 4) / 4 <=? 32767))) as H.
  { intros s d Hs Hd Ms Md.
    pose proof (can_branch_to_exact s d Hs Hd Ms Md) as E.
    destruct (can_branch_to s d); symmetry.
    - apply andb_true_iff. rewrite !Z.leb_le. apply E. reflexivity.
    - apply not_true_iff_false. intros C. apply andb_true_iff in C.
      rewrite !Z.leb_le in C. apply E in C. discriminate C. }
  split_and!; rewrite H by (reflexivity || lia); reflexivity.
Defined.

(** X21. [write_jr] with one register name returns 0 and writes the word
    with funct in bits 0-5, the register in bits 21-25 and zero elsewhere. *)
Theorem write_jr_layout (funct : Z) (a0 : string) :
  0 <= funct < 64 -> translate_reg a0 <> -1 ->
  exists w,
    write_jr funct [Some a0] = Some (0, write_inst_hex w) /\
    0 <= w < 2 ^ 32 /\
    field w 0 6 = funct /\ field w 6 5 = 0 /\ field w 11 5 = 0 /\
    field w 16 5 = 0 /\ field w 21 5 = translate_reg a0 /\
    field w 26 6 = 0.
Proof.
  intros Hf H0. destruct (reg_ok _ H0) as [E0 R0].
  unfold write_jr. rewrite E0.
  eexists. split; [reflexivity|].
  replace (funct + shl_int (translate_reg a0) 21)
    with (funct + Z.shiftl 0 6 + shl_int 0 11 + shl_int 0 16
          + shl_int (translate_reg a0) 21)
    by (change (shl_int 0 11) with 0; change (shl_int 0 16) with 0;
        rewrite Z.shiftl_0_l; lia).
  rewrite rword_value by (assumption || lia).
  apply (rword_fields funct 0 0 0); assumption || lia.
Qed.

Lemma write_jr_layout_witness :
  exists w,
    write_jr 0x08 [Some "$ra"] = Some (0, write_inst_hex w) /\
    field w 0 6 = 8 /\ field w 21 5 = 31.
Proof.
  destruct (write_jr_layout 0x08 "$ra") as (w & E & _ & F0 & _ & _ & _ & F1 & _).
  - lia.
  - discriminate.
  - exists w. split_and!; assumption.
Defined.

(** ** Numbers printed in decimal and read back *)

Lemma accumulate_uint_acc (d : Decimal.uint) : forall acc : positive,
  accumulate 10 (Z.pos acc) (NilEmpty.string_of_uint d)
  = (Z.pos (Pos.of_uint_acc d acc), EmptyString).
Proof.
  induction d; intros acc; cbn [NilEmpty.string_of_uint accumulate Pos.of_uint_acc];
    [reflexivity|..];
    match goal with
    | |- context [digit_in 10 ?c] =>
        let r := eval vm_compute in (digit_in 10 c) in
        change (digit_in 10 c) with r; cbv iota beta
    end;
    match goal with
    | |- accumulate 10 ?a _ = (Z.pos (Pos.of_uint_acc _ ?b), _) =>
        replace a with (Z.pos b) by lia
    end; apply IHd.
Qed.

Lemma accumulate_uint (d : Decimal.uint) :
  accumulate 10 0 (NilEmpty.string_of_uint d)
  = (Z.of_N (Pos.of_uint d), EmptyString).
Proof.
  induction d; cbn [NilEmpty.string_of_uint accumulate Pos.of_uint];
    [reflexivity|..];
    match goal with
    | |- context [digit_in 10 ?c] =>
        let r := eval vm_compute in (digit_in 10 c) in
        change (digit_in 10 c) with r; cbv iota beta
    end;
    [exact IHd | apply (accumulate_uint_acc d _) ..].
Qed.

Lemma to_uint_head (p : positive) :
  exists c r,
    NilZero.string_of_uint (Pos.to_uint p) = String c r /\
    49 <= code c <= 57.
Proof.
  pose proof (Unsigned.to_of (Pos.to_uint p)) as H.
  rewrite Unsigned.of_to in H. simpl in H.
  pose proof (Unsigned.to_uint_nonzero p) as Hz.
  destruct (Pos.to_uint p) as [|l|l|l|l|l|l|l|l|l|l] eqn:E;
    try (eexists _, _; split; [reflexivity | vm_compute; split; discriminate]).
  exfalso. rewrite unorm_D0 in H.
  unfold Decimal.unorm in H.
  destruct (Decimal.nzhead l) eqn:N; try discriminate H.
  - injection H as Hl. apply Hz. by rewrite Hl.
  - apply (nzhead_nonzero l l). congruence.
Qed.

Lemma strtol_digits (c : ascii) (r : string) (v : Z) (rest : string) :
  49 <= code c <= 57 ->
  accumulate 10 0 (String c r) = (v, rest) ->
  strtol (String c r) = (clamp_long v, rest) /\
  strtol (String "-" (String c r)) = (clamp_long (- v), rest).
Proof.
  intros Hc Hacc.
  assert (isspace c = false) as Sp.
  { unfold isspace. apply orb_false_iff. split; [apply Z.eqb_neq; lia|].
    apply andb_false_iff. right. apply Z.leb_gt. lia. }
  assert ((code c =? 45) = false) as S1 by (apply Z.eqb_neq; lia).
  assert ((code c =? 43) = false) as S2 by (apply Z.eqb_neq; lia).
  assert ((code c =? 48) = false) as S3 by (apply Z.eqb_neq; lia).
  assert (is_some (digit_in 10 c) = true) as D.
  { unfold digit_in, digit_value.
    assert ((48 <=? code c) && (code c <=? 57) = true) as ->.
    { apply andb_true_iff. rewrite !Z.leb_le. lia. }
    destruct (Z.ltb_spec (code c - 48) 10); [reflexivity | lia]. }
  split.
  - unfold strtol. cbn [skip_spaces]. rewrite Sp, S1, S2.
    destruct r as [|x [|h r]]; rewrite S3; try rewrite andb_false_l;
      rewrite D, Hacc; reflexivity.
  - unfold strtol. cbn [skip_spaces].
    change (isspace "-") with false. cbv iota.
    change (code "-" =? 45) with true. cbv iota.
    destruct r as [|x [|h r]]; rewrite S3; try rewrite andb_false_l;
      rewrite D, Hacc; reflexivity.
Qed.

Lemma strtol_print_ld (v : Z) :
  LONG_MIN <= v <= LONG_MAX -> strtol (print_ld v) = (v, EmptyString).
Proof.
  intros Hv.
  assert (clamp_long v = v) as Hc.
  { unfold clamp_long. destruct (Z.ltb_spec v LONG_MIN); [lia|].
    rewrite Z.gtb_ltb. destruct (Z.ltb_spec LONG_MAX v); [lia | reflexivity]. }
  unfold print_ld. destruct v as [|p|p]; [reflexivity|..];
    cbn [Z.to_int NilZero.string_of_int];
    destruct (to_uint_head p) as (c & r & E & Hd);
    pose proof (accumulate_uint (Pos.to_uint p)) as A;
    rewrite Unsigned.of_to in A;
    assert (NilEmpty.string_of_uint (Pos.to_uint p) = String c r) as E'
      by (rewrite <- E; unfold NilZero.string_of_uint;
          pose proof (Unsigned.to_uint_nonnil p);
          destruct (Pos.to_uint p); [congruence | reflexivity ..]);
    rewrite E' in A; rewrite E;
    destruct (strtol_digits c r _ _ Hd A) as [P N].
  - rewrite P. simpl Z.of_N. by rewrite Hc.
  - rewrite N. simpl Z.of_N. change (- Z.pos p) with (Z.neg p). by rewrite Hc.
Qed.

(** X13. A number printed with %ld is read back by [translate_num]: for
    every [long] value within the bounds the call returns 0 and stores that
    value, and for one outside the bounds it returns -1 and leaves the
    output location as it was. *)
Theorem translate_num_reads_printed (out : option Z) (v lo hi : Z) :
  LONG_MIN <= v <= LONG_MAX ->
  (lo <= v <= hi ->
   translate_num out (Some (print_ld v)) lo hi = (0, Some v)) /\
  (~ lo <= v <= hi ->
   translate_num out (Some (print_ld v)) lo hi = (-1, out)).
Proof.
  intros Hv. unfold translate_num. rewrite (strtol_print_ld v Hv).
  rewrite Z.gtb_ltb. split; intros H.
  - destruct (Z.ltb_spec v lo); [lia|]. destruct (Z.ltb_spec hi v); [lia|].
    reflexivity.
  - destruct (Z.ltb_spec v lo); [reflexivity|].
    destruct (Z.ltb_spec hi v); [reflexivity|]. lia.
Qed.

Lemma translate_num_reads_printed_witness :
  translate_num None (Some (print_ld (-32768))) INT16_MIN INT16_MAX
    = (0, Some (-32768)) /\
  translate_num (Some 7) (Some (print_ld 40000)) INT16_MIN INT16_MAX
    = (-1, Some 7).
Proof.
  split.
  - apply (translate_num_reads_printed None (-32768) INT16_MIN INT16_MAX);
      vm_compute; split; discriminate.
  - apply (translate_num_reads_printed (Some 7) 40000 INT16_MIN INT16_MAX).
    + vm_compute; split; discriminate.
    + vm_compute. intros [_ H]. apply H. reflexivity.
Defined.

(** X14. li with an immediate below 65536 is expanded into the one line
    addiu rd $0 imm, but [write_addiu] accepts that line only when the
    immediate lies within -32768..32767: for 32768..65535 and below -32768
    pass one emits an instruction that pass two refuses. *)
Theorem li_single_line_may_be_refused (rd s : string) :
  let imm := fst (strtol s) in
  translate_reg rd <> -1 -> imm < 65536 ->
  write_pass_one "li" [Some rd; Some s]
    = Some (1, "addiu " ++ rd ++ " $0 " ++ s ++ newline) /\
  (-32768 <= imm <= 32767 ->
   exists w,
     write_addiu 0x09 [Some rd; Some "$0"; Some s] = (0, write_inst_hex w) /\
     sign_extend16 (field w 0 16) = imm /\
     field w 16 5 = translate_reg rd /\ field w 21 5 = 0) /\
  (32767 < imm \/ imm < -32768 ->
   write_addiu 0x09 [Some rd; Some "$0"; Some s] = (-1, EmptyString)).
Proof.
  intros imm Hrd Hi. split_and!.
  - rewrite li_expansion. cbv zeta. fold imm.
    destruct (Z.ltb_spec imm 65536); [reflexivity | lia].
  - intros Hb. destruct (reg_ok _ Hrd) as [E R].
    rewrite write_addiu_eq. fold imm. change (translate_reg "$0") with 0.
    rewrite (in_bounds (-32768) 32767 imm Hb), E. simpl.
    eexists. split; [reflexivity|].
    destruct (itype_word_fields 0x09 0 (translate_reg rd) imm)
      as (_ & F0 & F1 & F2 & _); [lia | lia | exact R |].
    rewrite F0, (sign_extend16_mod imm Hb). auto.
  - intros Hb. rewrite write_addiu_eq. fold imm.
    rewrite (out_of_bounds (-32768) 32767 imm) by lia. reflexivity.
Qed.

Lemma li_single_line_may_be_refused_witness :
  write_pass_one "li" [Some "$t0"; Some "40000"]
    = Some (1, "addiu $t0 $0 40000" ++ newline) /\
  write_addiu 0x09 [Some "$t0"; Some "$0"; Some "40000"] = (-1, EmptyString).
Proof.
  destruct (li_single_line_may_be_refused "$t0" "40000") as (H1 & _ & H3).
  - discriminate.
  - reflexivity.
  - split; [exact H1|]. apply H3. left. reflexivity.
Defined.

Lemma split_halves (v : Z) :
  65536 <= v < 2 ^ 32 ->
  0 <= Z.shiftr v 16 <= 65535 /\ 0 <= Z.land v 0xFFFF <= 65535 /\
  Z.shiftr v 16 * 2 ^ 16 + Z.land v 0xFFFF = v.
Proof.
  intros H. rewrite low16, Z.shiftr_div_pow2 by lia.
  change (2 ^ 16) with 65536. change (2 ^ 32) with 4294967296 in H.
  Z.div_mod_to_equations. lia.
Qed.

(** X15. li with an immediate from 65536 up to 2^32 - 1 is expanded into
    lui $at hi and ori rd $at lo with hi = imm >> 16 and lo = imm & 0xFFFF
    printed in decimal; pass two accepts both lines, and the two 16-bit
    immediates it encodes put together, hi * 65536 + lo, are the original
    number. From 2^32 on the lui line is refused by [write_lui]. *)
Theorem li_pair_loads_the_immediate (rd s : string) :
  let imm := fst (strtol s) in
  let hi := print_ld (Z.shiftr imm 16) in
  let lo := print_ld (Z.land imm 0xFFFF) in
  translate_reg rd <> -1 -> 65536 <= imm ->
  write_pass_one "li" [Some rd; Some s]
    = Some (2, "lui $at " ++ hi ++ newline
               ++ "ori " ++ rd ++ " $at " ++ lo ++ newline) /\
  (imm < 2 ^ 32 ->
   exists w1 w2,
     write_lui 0x0f [Some "$at"; Some hi] = (0, write_inst_hex w1) /\
     write_ori 0x0d [Some rd; Some "$at"; Some lo] = (0, write_inst_hex w2) /\
     field w1 16 5 = 1 /\ field w2 21 5 = 1 /\
     field w2 16 5 = translate_reg rd /\
     field w1 0 16 * 2 ^ 16 + field w2 0 16 = imm) /\
  (2 ^ 32 <= imm ->
   write_lui 0x0f [Some "$at"; Some hi] = (-1, EmptyString)).
Proof.
  intros imm hi lo Hrd Hi.
  pose proof (strtol_range s) as Rs. fold imm in Rs.
  assert (LONG_MIN <= Z.shiftr imm 16 <= LONG_MAX) as Rh.
  { unfold LONG_MIN, LONG_MAX in *. rewrite Z.shiftr_div_pow2 by lia.
    change (2 ^ 16) with 65536. change (2 ^ 63) with 9223372036854775808 in *.
    Z.div_mod_to_equations. lia. }
  assert (LONG_MIN <= Z.land imm 0xFFFF <= LONG_MAX) as Rl.
  { unfold LONG_MIN, LONG_MAX. rewrite low16.
    pose proof (Z.mod_pos_bound imm (2 ^ 16)). lia. }
  assert (fst (strtol hi) = Z.shiftr imm 16) as Eh
    by (unfold hi; by rewrite strtol_print_ld).
  assert (fst (strtol lo) = Z.land imm 0xFFFF) as El
    by (unfold lo; by rewrite strtol_print_ld).
  split_and!.
  - rewrite li_expansion. cbv zeta. fold imm.
    destruct (Z.ltb_spec imm 65536); [lia | reflexivity].
  - intros Hu. destruct (split_halves imm) as (Bh & Bl & Sum); [lia|].
    destruct (reg_ok _ Hrd) as [E R].
    rewrite write_lui_eq, write_ori_eq, Eh, El.
    change (translate_reg "$at") with 1.
    rewrite (in_bounds 0 65535 _ Bh), (in_bounds 0 65535 _ Bl), E. simpl.
    eexists _, _. split; [reflexivity|]. split; [reflexivity|].
    destruct (itype_word_fields 0x0f 0 1 (Z.shiftr imm 16))
      as (_ & F10 & F11 & _); [lia | lia | lia |].
    destruct (itype_word_fields 0x0d 1 (translate_reg rd) (Z.land imm 0xFFFF))
      as (_ & F20 & F21 & F22 & _); [lia | lia | exact R |].
    rewrite F10, F20, !Z.mod_small by (change (2 ^ 16) with 65536; lia).
    auto.
  - intros Hu. rewrite write_lui_eq, Eh.
    rewrite (out_of_bounds 0 65535) by
      (rewrite Z.shiftr_div_pow2 by lia; change (2 ^ 16) with 65536;
       change (2 ^ 32) with 4294967296 in Hu; Z.div_mod_to_equations; lia).
    reflexivity.
Qed.

Lemma li_pair_loads_the_immediate_witness :
  exists w1 w2,
    write_pass_one "li" [Some "$t0"; Some "100000"]
      = Some (2, "lui $at 1" ++ newline ++ "ori $t0 $at 34464" ++ newline) /\
    write_lui 0x0f [Some "$at"; Some "1"] = (0, write_inst_hex w1) /\
    write_ori 0x0d [Some "$t0"; Some "$at"; Some "34464"]
      = (0, write_inst_hex w2) /\
    field w1 0 16 * 2 ^ 16 + field w2 0 16 = 100000.
Proof.
  destruct (li_pair_loads_the_immediate "$t0" "100000") as (H1 & H2 & _).
  - discriminate.
  - vm_compute. discriminate.
  - destruct H2 as (w1 & w2 & E1 & E2 & _ & _ & _ & S); [reflexivity|].
    exists w1, w2. split_and!; assumption.
Defined.

(** ** Pass one: the count is the number of lines *)

Lemma count_lines_app (a b : string) :
  count_lines (a ++ b) = count_lines a + count_lines b.
Proof. induction a as [|c a IH]; simpl; [reflexivity | rewrite IH; lia]. Qed.

Lemma count_lines_no_newline (s : string) :
  no_newline s = true -> count_lines s = 0.
Proof.
  unfold no_newline. induction s as [|c s IH]; simpl; [reflexivity|].
  intros H. apply andb_true_iff in H. destruct H as [Hc Hs].
  destruct (code c =? 10); [discriminate Hc | by rewrite IH].
Qed.

Lemma count_lines_uint (d : Decimal.uint) :
  count_lines (NilEmpty.string_of_uint d) = 0.
Proof. induction d; simpl; [reflexivity | exact IHd ..]. Qed.

Lemma count_lines_print_ld (v : Z) : count_lines (print_ld v) = 0.
Proof.
  unfold print_ld, NilZero.string_of_int, NilZero.string_of_uint.
  destruct (Z.to_int v) as [d|d]; destruct d; simpl;
    first [reflexivity | apply count_lines_uint].
Qed.

Lemma count_lines_args (args : list string) :
  Forall (fun a => no_newline a = true) args ->
  count_lines (fold_right (fun a acc => " " ++ a ++ acc) EmptyString args) = 0.
Proof.
  intros H. induction args as [|a args IH]; [reflexivity|].
  apply Forall_cons in H. destruct H as [Ha H]. cbn [fold_right].
  rewrite !count_lines_app, (IH H), (count_lines_no_newline a Ha).
  reflexivity.
Qed.

Ltac count_text :=
  repeat first
    [ rewrite count_lines_app
    | rewrite count_lines_print_ld
    | match goal with
      | H : no_newline ?a = true |- context [count_lines ?a] =>
          rewrite (count_lines_no_newline a H)
      end ];
  reflexivity.

(** X16. For a mnemonic and non-NULL arguments without newline characters,
    [write_pass_one] always returns: the count it returns, between 0 and 4,
    is the number of lines it wrote, and with count 0 it wrote nothing. *)
Theorem write_pass_one_counts_lines (nm : string) (args : list string) :
  no_newline nm = true ->
  Forall (fun a => no_newline a = true) args ->
  exists n text,
    write_pass_one nm (map Some args) = Some (n, text) /\
    count_lines text = n /\ 0 <= n <= 4 /\
    (n = 0 -> text = EmptyString).
Proof.
  intros Hn Ha. unfold write_pass_one.
  assert (has_null (map Some args) = false) as ->.
  { clear. unfold has_null. induction args; simpl; auto. }
  assert (present (map Some args) = args) as Hp.
  { clear. unfold present. induction args as [|a l IH]; simpl; [reflexivity|].
    by f_equal. }
  destruct (String.eqb nm "li").
  { destruct args as [|a0 [|a1 [|a2 l]]]; simpl map; cbv iota;
      try (eexists _, _;
           (split; [|split; [|split]]);
           [reflexivity | reflexivity | lia | reflexivity]).
    rewrite li_always_reads_a_number.
    apply Forall_cons in Ha. destruct Ha as [H0 Ha].
    apply Forall_cons in Ha. destruct Ha as [H1 _].
    destruct (fst (strtol a1) <? 65536);
      (eexists _, _; (split; [|split; [|split]]);
       [reflexivity | count_text | lia | discriminate]). }
  destruct (String.eqb nm "push").
  { destruct args as [|a0 [|a1 l]]; simpl map; cbv iota;
      try (eexists _, _;
           (split; [|split; [|split]]);
           [reflexivity | reflexivity | lia | reflexivity]).
    apply Forall_cons in Ha. destruct Ha as [H0 _].
    eexists _, _; (split; [|split; [|split]]);
      [reflexivity | count_text | lia | discriminate]. }
  destruct (String.eqb nm "pop").
  { destruct args as [|a0 [|a1 l]]; simpl map; cbv iota;
      try (eexists _, _;
           (split; [|split; [|split]]);
           [reflexivity | reflexivity | lia | reflexivity]).
    apply Forall_cons in Ha. destruct Ha as [H0 _].
    eexists _, _; (split; [|split; [|split]]);
      [reflexivity | count_text | lia | discriminate]. }
  destruct (String.eqb nm "mod").
  { destruct args as [|a0 [|a1 [|a2 [|a3 l]]]]; simpl map; cbv iota;
      try (eexists _, _;
           (split; [|split; [|split]]);
           [reflexivity | reflexivity | lia | reflexivity]).
    apply Forall_cons in Ha. destruct Ha as [H0 Ha].
    apply Forall_cons in Ha. destruct Ha as [H1 Ha].
    apply Forall_cons in Ha. destruct Ha as [H2 _].
    eexists _, _; (split; [|split; [|split]]);
      [reflexivity | count_text | lia | discriminate]. }
  destruct (String.eqb nm "subu").
  { destruct args as [|a0 [|a1 [|a2 [|a3 l]]]]; simpl map; cbv iota;
      try (eexists _, _;
           (split; [|split; [|split]]);
           [reflexivity | reflexivity | lia | reflexivity]).
    apply Forall_cons in Ha. destruct Ha as [H0 Ha].
    apply Forall_cons in Ha. destruct Ha as [H1 Ha].
    apply Forall_cons in Ha. destruct Ha as [H2 _].
    eexists _, _; (split; [|split; [|split]]);
      [reflexivity | count_text | lia | discriminate]. }
  rewrite Hp. eexists _, _.
  (split; [|split; [|split]]); [reflexivity | | lia | discriminate].
  unfold write_inst_string.
  rewrite !count_lines_app, (count_lines_no_newline nm Hn),
    (count_lines_args args Ha). reflexivity.
Qed.

Lemma write_pass_one_counts_lines_witness :
  exists text,
    write_pass_one "subu" [Some "$t0"; Some "$t1"; Some "$t2"]
      = Some (4, text) /\ count_lines text = 4.
Proof.
  destruct (write_pass_one_counts_lines "subu" ["$t0"; "$t1"; "$t2"])
    as (n & text & E & C & _).
  - reflexivity.
  - repeat (apply List.Forall_cons; [reflexivity|]). apply List.Forall_nil.
  - exists text. simpl map in E.
    assert (n = 4) as -> by (vm_compute in E; congruence).
    split; [exact E | exact C].
Defined.

(** ** The dispatcher *)

Ltac shape_of_encoder :=
  intros; unfold well_shaped;
  do 4 (try match goal with
  | l : list (option string) |- _ => destruct l as [|[?|] l]
  end);
  try (left; reflexivity);
  repeat match goal with
  | |- context [translate_num ?o ?s ?l ?h] =>
      destruct (translate_num o s l h) as [? [?|]]
  | |- context [if ?b then _ else _] => destruct b
  end;
  first [ left; reflexivity
        | right; eexists; split; [apply to_uint32_range | reflexivity] ].

Lemma encoders_well_shaped (k : Z) (args : list (option string)) :
  well_shaped (write_rtype k args) /\ well_shaped (write_shift k args) /\
  well_shaped (write_addiu k args) /\ well_shaped (write_ori k args) /\
  well_shaped (write_lui k args) /\ well_shaped (write_mem k args) /\
  well_shaped (write_mult_div k args) /\
  well_shaped (write_mfhi_mflo k args) /\
  (forall a t, well_shaped (write_branch k args a t)) /\
  (forall a t, well_shaped (fst (write_jump k args a t))).
Proof.
  unfold write_rtype, write_shift, write_addiu, write_ori, write_lui,
    write_mem, write_mult_div, write_mfhi_mflo, write_branch, write_jump,
    itype_word.
  split_and!; try shape_of_encoder.
  intros a t. unfold well_shaped.
  destruct args as [|a0 [|a1 l]]; try (left; reflexivity).
  destruct (add_to_table t a0 a) as [r t']. simpl.
  right. eexists. split; [apply to_uint32_range | reflexivity].
Qed.

Lemma write_jr_shape (k : Z) (args : list (option string)) :
  match write_jr k args with
  | None => args = [None]
  | Some r =>
      r = (-1, EmptyString) \/
      exists w, 0 <= w < 2 ^ 32 /\
                (r = (0, write_inst_hex w) \/ r = (-1, write_inst_hex w))
  end.
Proof.
  unfold write_jr. destruct args as [|[a0|] [|a1 l]]; auto.
  destruct (translate_reg a0 =? -1); right; eexists;
    (split; [apply to_uint32_range | auto]).
Qed.

Ltac dispatch_leaf k args :=
  unfold keep;
  destruct (encoders_well_shaped k args)
    as (? & ? & ? & ? & ? & ? & ? & ? & ? & ?);
  split; [left; auto | intros; reflexivity].

(** X17. What [translate_inst] can do, for any mnemonic and arguments: it
    returns 0 having written exactly one line with a 32-bit word, or -1
    having written nothing; the one exception is jr, which with a token that
    is no register returns -1 after writing a line (and dereferences a NULL
    argument). The relocation table is left as it was unless the mnemonic is
    j or jal. *)
Theorem translate_inst_outcome (nm : string) (args : list (option string))
    (address : Z) (symtbl reltbl : option SymbolTable) :
  match translate_inst nm args address symtbl reltbl with
  | None => nm = "jr" /\ args = [None]
  | Some (r, reltbl') =>
      (well_shaped r \/
       (nm = "jr" /\
        exists w, 0 <= w < 2 ^ 32 /\ r = (-1, write_inst_hex w))) /\
      (nm <> "j" -> nm <> "jal" -> reltbl' = reltbl)
  end.
Proof.
  unfold translate_inst.
  destruct (Nat.eqb (length args) 0).
  { split; [left; left; reflexivity | reflexivity]. }
  repeat match goal with
  | |- context [String.eqb nm ?l] =>
      destruct (String.eqb_spec nm l) as [->|?];
      [ cbn [String.eqb Ascii.eqb Bool.eqb orb andb negb];
        repeat match goal with
        | |- context [if ?b then _ else _] => destruct b
        end;
        try (split; [left; left; reflexivity | reflexivity]) | ]
  end; cbn [orb andb negb];
  try (split; [left; left; reflexivity | reflexivity]).
  all: try match goal with
  | |- context [keep _ (?f ?k ?l)] => dispatch_leaf k l
  | |- context [keep _ (write_branch ?k ?l _ _)] => dispatch_leaf k l
  end.
  all: try match goal with
  | |- context [write_jump ?k ?l ?a ?t] =>
      destruct (encoders_well_shaped k l)
        as (_ & _ & _ & _ & _ & _ & _ & _ & _ & J);
      specialize (J a t);
      destruct (write_jump k l a t) as [r t'];
      split; [left; exact J | intros; congruence]
  end.
  all: try match goal with
  | |- context [write_jr ?k ?l] =>
      pose proof (write_jr_shape k l) as J;
      destruct (write_jr k l) as [r|]; [|split; [reflexivity | exact J]];
      unfold keep; split; [|reflexivity];
      destruct J as [->|(w & Hw & [->| ->])];
      [ left; left; reflexivity
      | left; right; exists w; auto
      | right; split; [reflexivity | exists w; auto] ]
  end.
Qed.

(** X18. [translate_inst] refuses, returning -1 with nothing written and
    the relocation table untouched: every mnemonic outside its 23, whatever
    the arguments; every mnemonic when there is no argument at all; beq and
    bne without a symbol table; j and jal without a relocation table. *)
Theorem translate_inst_refusals (nm : string) (args : list (option string))
    (address : Z) (symtbl reltbl : option SymbolTable) :
  (~ In nm mnemonics ->
   translate_inst nm args address symtbl reltbl
     = Some ((-1, EmptyString), reltbl)) /\
  translate_inst nm [] address symtbl reltbl
    = Some ((-1, EmptyString), reltbl) /\
  (nm = "beq" \/ nm = "bne" ->
   translate_inst nm args address None reltbl
     = Some ((-1, EmptyString), reltbl)) /\
  (nm = "j" \/ nm = "jal" ->
   translate_inst nm args address symtbl None
     = Some ((-1, EmptyString), None)).
Proof.
  split_and!.
  - intros H. unfold translate_inst.
    destruct (Nat.eqb (length args) 0); [reflexivity|].
    repeat match goal with
    | |- context [String.eqb nm ?l] =>
        destruct (String.eqb_spec nm l) as [->|_];
        [exfalso; apply H; simpl; tauto|]
    end.
    reflexivity.
  - reflexivity.
  - intros [-> | ->]; unfold translate_inst;
      destruct (Nat.eqb (length args) 0); reflexivity.
  - intros [-> | ->]; unfold translate_inst;
      destruct (Nat.eqb (length args) 0); reflexivity.
Qed.

Lemma translate_inst_refusals_witness :
  translate_inst "foobar" [Some "$t0"; Some "$t1"] 0 None None
    = Some ((-1, EmptyString), None) /\
  translate_inst "beq" [Some "$t0"; Some "$t1"; Some "l"] 0 None None
    = Some ((-1, EmptyString), None).
Proof.
  split.
  - destruct (translate_inst_refusals "foobar" [Some "$t0"; Some "$t1"] 0
                None None) as (H & _).
    apply H. simpl. intros C.
    repeat (destruct C as [C|C]; [discriminate C|]). exact C.
  - destruct (translate_inst_refusals "beq" [Some "$t0"; Some "$t1"; Some "l"]
                0 None None) as (_ & _ & H & _).
    apply H. left. reflexivity.
Defined.

(** ** The hexadecimal line *)

Lemma nibble_range (w i : Z) : 0 <= nibble w i < 16.
Proof.
  unfold nibble. change 15 with (Z.ones 4). rewrite Z.land_ones by lia.
  apply Z.mod_pos_bound. lia.
Qed.

Lemma hex_digit_spec (d : Z) :
  0 <= d < 16 ->
  digit_in 16 (hex_digit d) = Some d /\ is_lower_hex (hex_digit d) = true.
Proof.
  intros H.
  assert (d = 0 \/ d = 1 \/ d = 2 \/ d = 3 \/ d = 4 \/ d = 5 \/ d = 6 \/
          d = 7 \/ d = 8 \/ d = 9 \/ d = 10 \/ d = 11 \/ d = 12 \/ d = 13 \/
          d = 14 \/ d = 15) as C by lia.
  repeat (destruct C as [->|C]; [split; reflexivity|]).
  subst d. split; reflexivity.
Qed.

Lemma nibbles_sum (w : Z) :
  0 <= w < 2 ^ 32 ->
  ((((((nibble w 7 * 16 + nibble w 6) * 16 + nibble w 5) * 16 + nibble w 4)
      * 16 + nibble w 3) * 16 + nibble w 2) * 16 + nibble w 1) * 16
  + nibble w 0 = w.
Proof.
  intros H. unfold nibble. change 15 with (Z.ones 4).
  rewrite !Z.land_ones, !Z.shiftr_div_pow2 by lia.
  change (2 ^ 32) with 4294967296 in H.
  change (2 ^ (4 * 0)) with 1. change (2 ^ (4 * 1)) with 16.
  change (2 ^ (4 * 2)) with 256. change (2 ^ (4 * 3)) with 4096.
  change (2 ^ (4 * 4)) with 65536. change (2 ^ (4 * 5)) with 1048576.
  change (2 ^ (4 * 6)) with 16777216. change (2 ^ (4 * 7)) with 268435456.
  change (2 ^ 4) with 16.
  Z.div_mod_to_equations. lia.
Qed.

(** X19. The line [write_inst_hex] writes for a 32-bit word is eight
    lowercase hexadecimal digits and a newline, and the digits are the word:
    read back in base 16 (by [strtol] after a 0x prefix) they give the word
    again, so different words give different lines. *)
Theorem write_inst_hex_round_trip (w : Z) :
  0 <= w < 2 ^ 32 ->
  exists digits,
    write_inst_hex w = digits ++ newline /\
    String.length digits = 8%nat /\
    all_chars is_lower_hex digits = true /\
    strtol ("0x" ++ digits) = (w, EmptyString).
Proof.
  intros H. exists (print_08x w). split; [reflexivity|].
  split; [reflexivity|].
  pose proof (fun i => hex_digit_spec _ (nibble_range w i)) as D.
  split.
  - unfold print_08x. cbn [all_chars].
    rewrite !(proj2 (D _)). reflexivity.
  - unfold strtol, print_08x.
    repeat match goal with
    | |- context [String.append "0x" ?s] =>
        change (String.append "0x" s) with (String "0" (String "x" s))
    end.
    cbn [skip_spaces].
    change (isspace "0") with false. cbv iota.
    change (code "0" =? 45) with false. change (code "0" =? 43) with false.
    cbv iota. change (code "0" =? 48) with true. change (is_x "x") with true.
    rewrite (proj1 (D 7)). cbn [is_some andb]. cbv iota beta.
    cbn [accumulate]. rewrite !(proj1 (D _)).
    f_equal. rewrite Z.mul_0_l, Z.add_0_l, (nibbles_sum w H).
    unfold clamp_long, LONG_MIN, LONG_MAX.
    destruct (Z.ltb_spec w (- 2 ^ 63)); [lia|].
    rewrite Z.gtb_ltb. destruct (Z.ltb_spec (2 ^ 63 - 1) w); [lia | reflexivity].
Qed.

Lemma write_inst_hex_round_trip_witness :
  exists digits,
    write_inst_hex 0xafa8fffc = digits ++ newline /\
    strtol ("0x" ++ digits) = (0xafa8fffc, EmptyString).
Proof.
  destruct (write_inst_hex_round_trip 0xafa8fffc) as (d & E & _ & _ & R).
  - lia.
  - exists d. split; assumption.
Defined.
